(** * earthquake-alert: the poll / filter / notify pipeline of [cmd/main.go]

    The program has two goroutines joined by one unbuffered channel.
    [loop] (the Poller) asks the early-warning feed for events on every tick
    of a ticker, remembers the start time of the first event of the reply in
    [lastTs] and hands that event over when it is at most thirty minutes old.
    [notification] (the Notifier) turns every event it receives into one GET
    request to the push service.

    The embedding keeps the shape of the Go code.  A goroutine is a function
    from the [select] cases that fire, in order, to the effects it performs
    (requests sent, log lines, sends on the channel); the operating system,
    the network and the Go library routines whose result is not fixed by the
    program are arguments. *)

From Stdlib Require Import ZArith List String Ascii Bool Lia.
From Stdlib Require Import Numbers.DecimalString.
From Stdlib Require Numbers.DecimalPos Numbers.DecimalZ.
From Stdlib Require Import Floats.PrimFloat Floats.SpecFloat Floats.FloatOps.
Import ListNotations.

Local Open Scope string_scope.
Local Open Scope Z_scope.

(** ** Go values *)

(** An [int64] is an integer; the program copies and prints such values and
    hands them to package [time], and never does arithmetic on them itself,
    so no wrap-around appears.  A [float64] is a binary64 number. *)
Definition int64 := Z.
Definition float64 := float.

(** The ways in which a call of the program can fail.  Go's [error] values
    carry a text; only the call that produced them matters here. *)
Inductive error : Type :=
| ErrLoadLocation    (* time.LoadLocation *)
| ErrParseURL        (* url.Parse, in http.NewRequestWithContext *)
| ErrDo              (* client.Do *)
| ErrReadAll         (* io.ReadAll *)
| ErrUnmarshal.      (* json.Unmarshal *)

Inductive result (A : Type) : Type :=
| Ok (a : A)
| Err (e : error).
Arguments Ok {A} a.
Arguments Err {A} e.

(** ** Package [time] *)
Module time.

(** An instant, in nanoseconds since the Unix epoch.  Go keeps seconds and
    nanoseconds apart so that no instant used here is out of range. *)
Definition Time := Z.

(** A [Duration] is an [int64] count of nanoseconds. *)
Definition Duration := Z.

Definition minDuration : Duration := - 2 ^ 63.
Definition maxDuration : Duration := 2 ^ 63 - 1.

Definition Nanosecond : Duration := 1.
Definition Microsecond : Duration := 1000 * Nanosecond.
Definition Millisecond : Duration := 1000 * Microsecond.
Definition Second : Duration := 1000 * Millisecond.
Definition Minute : Duration := 60 * Second.

(** [Unix(sec, nsec)]: the instant [sec] seconds and [nsec] nanoseconds
    after the epoch. *)
Definition Unix (sec nsec : Z) : Time := sec * 1000000000 + nsec.

(** [UnixMilli(msec) = Unix(msec/1e3, (msec%1e3)*1e6)], with Go's
    truncating [/] and [%]. *)
Definition UnixMilli (msec : int64) : Time :=
  Unix (Z.quot msec 1000) (Z.rem msec 1000 * 1000000).

(** [t.Sub(u)]: the duration [t - u], or the largest (smallest) duration
    when the difference does not fit one. *)
Definition Sub (t u : Time) : Duration :=
  let d := t - u in
  if d <? minDuration then minDuration
  else if maxDuration <? d then maxDuration
  else d.

(** [Since(t) = Now().Sub(t)]; the reading of the clock is an argument. *)
Definition Since (now t : Time) : Duration := Sub now t.

(** The layout constant [time.DateTime]. *)
Definition DateTime : string := "2006-01-02 15:04:05".

End time.

(** ** The data of the feed *)

Record Event : Type := {
  EventId   : Z;
  Updates   : Z;
  Latitude  : float64;
  Longitude : float64;
  Depth     : float64;
  Epicenter : string;
  StartAt   : int64;
  UpdateAt  : int64;
  Magnitude : float64;
  InsideNet : Z;
  Sations   : Z
}.

Record Response : Type := {
  Code    : Z;
  Message : string;
  Data    : list Event
}.

(** ** Package [net/http], as far as the program uses it *)

Record Request : Type := {
  Method : string;
  URL    : string
}.

(** A reply of a server.  Its body is read once, by [io.ReadAll], which
    yields the bytes or fails. *)
Record HttpResponse : Type := {
  Body : result string
}.

Definition MethodGet : string := "GET".

(** What the network does with a request at one moment: [client.Do]. *)
Definition Net := Request -> result HttpResponse.

Definition io_ReadAll (body : result string) : result string := body.

(** ** Effects *)

Inductive Attr : Type :=
| attr_err    (key : string) (e : error)
| attr_int    (key : string) (n : Z)
| attr_string (key : string) (s : string)
| attr_event  (key : string) (ev : Event)
| attr_events (key : string) (evs : list Event)
| attr_time   (key : string) (t : time.Time).

Inductive Goroutine : Type := go_notification | go_loop.

(** What a run leaves behind, in the order in which it happens. *)
Inductive Effect : Type :=
| slog_Info  (msg : string) (attrs : list Attr)
| slog_Error (msg : string) (attrs : list Attr)
| http_Do    (req : Request)             (* a request handed to client.Do *)
| chan_send  (ev : Event)                (* notification <- ev *)
| go_start   (g : Goroutine)             (* go g(ctx, ch) *)
| await_interrupt                        (* <-quit *)
| cancel                                 (* cancelFunc() *)
| panic      (msg : string).

Definition Trace := list Effect.

(** Code that may fail and that leaves effects behind whether it fails or
    not. *)
Definition M (A : Type) : Type := Trace -> result A * Trace.

Definition ret {A} (a : A) : M A := fun tr => (Ok a, tr).

Definition bind {A B} (m : M A) (k : A -> M B) : M B :=
  fun tr =>
    match m tr with
    | (Ok a, tr') => k a tr'
    | (Err e, tr') => (Err e, tr')
    end.

Definition lift {A} (r : result A) : M A := fun tr => (r, tr).

Definition emit (e : Effect) : M unit := fun tr => (Ok tt, (tr ++ [e])%list).

Declare Scope go_scope.
Delimit Scope go_scope with go.
Notation "x <- m ;; k" := (bind m (fun x => k))
  (at level 61, m at next level, right associativity) : go_scope.
Notation "m ;;; k" := (bind m (fun _ => k))
  (at level 61, right associativity) : go_scope.

(** [client.Do(req)]: the request goes out, the network answers. *)
Definition client_Do (net : Net) (req : Request) : M HttpResponse :=
  fun tr => (net req, (tr ++ [http_Do req])%list).

(** ** Package [fmt] *)

(** The verb [%d] on an integer. *)
Definition fmt_d (z : Z) : string := NilZero.string_of_int (Z.to_int z).

(** ** Reading a trace *)

(** The events sent on the channel, in order. *)
Fixpoint sends (tr : Trace) : list Event :=
  match tr with
  | [] => []
  | chan_send ev :: tr' => ev :: sends tr'
  | _ :: tr' => sends tr'
  end.

(** The requests handed to [client.Do], in order. *)
Fixpoint requests (tr : Trace) : list Request :=
  match tr with
  | [] => []
  | http_Do req :: tr' => req :: requests tr'
  | _ :: tr' => requests tr'
  end.

Definition is_panic (e : Effect) : bool :=
  match e with panic _ => true | _ => false end.

Definition is_go_start (e : Effect) : bool :=
  match e with go_start _ => true | _ => false end.

(** ** Package [strings] *)

(** [strings.Contains(s, substr)] *)
Fixpoint Contains (s substr : string) : bool :=
  prefix substr s ||
  match s with
  | EmptyString => false
  | String _ s' => Contains s' substr
  end.

(** [strings.Split(s, sep)] for a separator of one byte. *)
Fixpoint Split (s : string) (sep : ascii) : list string :=
  match s with
  | EmptyString => [""]
  | String c s' =>
      if Ascii.eqb c sep then "" :: Split s' sep
      else match Split s' sep with
           | seg :: segs => String c seg :: segs
           | [] => [String c ""]
           end
  end.

(** [strings.CutPrefix(s, prefix)] *)
Fixpoint CutPrefix (s pre : string) : option string :=
  match pre, s with
  | EmptyString, _ => Some s
  | String a pre', String b s' =>
      if Ascii.eqb a b then CutPrefix s' pre' else None
  | String _ _, EmptyString => None
  end.

(** No byte of [s] is [c]. *)
Fixpoint free_of (c : ascii) (s : string) : bool :=
  match s with
  | EmptyString => true
  | String a s' => negb (Ascii.eqb a c) && free_of c s'
  end.

(** [strings.Join(elems, sep)] for a separator of one byte. *)
Fixpoint Join (elems : list string) (sep : ascii) : string :=
  match elems with
  | [] => ""
  | [s] => s
  | s :: elems' => s ++ String sep (Join elems' sep)
  end.

(** ** URL paths (RFC 3986, section 3.3)

    What it takes for a text to be one segment of a path, and which text a
    segment stands for. *)

Definition in_range (lo hi c : ascii) : bool :=
  (nat_of_ascii lo <=? nat_of_ascii c)%nat && (nat_of_ascii c <=? nat_of_ascii hi)%nat.

Definition is_alnum (c : ascii) : bool :=
  in_range "a" "z" c || in_range "A" "Z" c || in_range "0" "9" c.

Definition is_hex (c : ascii) : bool :=
  in_range "0" "9" c || in_range "a" "f" c || in_range "A" "F" c.

Definition hex_value (c : ascii) : nat :=
  if in_range "0" "9" c then nat_of_ascii c - nat_of_ascii "0"
  else if in_range "a" "f" c then nat_of_ascii c - nat_of_ascii "a" + 10
  else nat_of_ascii c - nat_of_ascii "A" + 10.

(** The bytes a path segment may hold as they are: unreserved characters,
    sub-delimiters, [:] and [@]. *)
Definition is_pchar (c : ascii) : bool :=
  is_alnum c || Contains "-._~!$&'()*+,;=:@" (String c "").

(** A path segment: [pchar]s and escapes [%XX]. *)
Fixpoint path_safe (s : string) : bool :=
  match s with
  | EmptyString => true
  | String c s' =>
      if Ascii.eqb c "%" then
        match s' with
        | String h (String l s'') => is_hex h && is_hex l && path_safe s''
        | _ => false
        end
      else is_pchar c && path_safe s'
  end.

(** The text a segment stands for, its escapes resolved. *)
Fixpoint pct_decode (s : string) : option string :=
  match s with
  | EmptyString => Some ""
  | String c s' =>
      if Ascii.eqb c "%" then
        match s' with
        | String h (String l s'') =>
            if is_hex h && is_hex l then
              option_map (String (ascii_of_nat (16 * hex_value h + hex_value l)))
                         (pct_decode s'')
            else None
        | _ => None
        end
      else option_map (String c) (pct_decode s')
  end.

(** ** Reference behaviour of the library routines

    The program is stated below over the routines of Go's library that it
    calls.  This module gives them the behaviour they have on the inputs of
    the examples: correctly rounded fixed-point printing of a [float64], and
    the layout [time.DateTime] in a zone with a fixed offset (Asia/Shanghai
    has been eight hours east of UTC without interruption since 1991). *)
Module Reference.

(** *** [%.<prec>f] *)

Fixpoint zeros (n : nat) : string :=
  match n with
  | O => ""
  | S n' => String "0"%char (zeros n')
  end.

(** [s], padded with zeros on the left to [width] characters. *)
Definition pad_left (width : nat) (s : string) : string :=
  zeros (width - String.length s) ++ s.

(** The integer nearest to [num / den], ties to the even one. *)
Definition round_half_even (num den : Z) : Z :=
  let q := num / den in
  let r := num mod den in
  if (den <? 2 * r) || ((2 * r =? den) && Z.odd q) then q + 1 else q.

(** [m * 2^e * 10^prec], rounded to an integer. *)
Definition scaled (m e : Z) (prec : nat) : Z :=
  let p := 10 ^ Z.of_nat prec in
  if 0 <=? e then m * 2 ^ e * p else round_half_even (m * p) (2 ^ (- e)).

(** The digits of [n / 10^prec] with [prec] decimals. *)
Definition fixed (n : Z) (prec : nat) : string :=
  let p := 10 ^ Z.of_nat prec in
  fmt_d (n / p) ++
  match prec with
  | O => ""
  | _ => "." ++ pad_left prec (fmt_d (n mod p))
  end.

Definition sign (s : bool) : string := if s then "-" else "".

Definition fmt_f (prec : nat) (x : float64) : string :=
  match Prim2SF x with
  | S754_nan => "NaN"
  | S754_infinity s => if s then "-Inf" else "+Inf"
  | S754_zero s => sign s ++ fixed 0 prec
  | S754_finite s m e => sign s ++ fixed (scaled (Zpos m) e prec) prec
  end.

(** *** [t.In(loc).Format(layout)] *)

(** A zone with one offset, in seconds east of UTC. *)
Record Location : Type := FixedZone {
  zone_name   : string;
  zone_offset : Z
}.

(** Year, month and day of the day that starts [days] days after
    1970-01-01, in the proleptic Gregorian calendar.  [Format] below prints
    the years 0 to 9999 as Go does. *)
Definition civil_from_days (days : Z) : Z * Z * Z :=
  let z := days + 719468 in
  let era := z / 146097 in
  let doe := z - era * 146097 in
  let yoe := (doe - doe / 1460 + doe / 36524 - doe / 146096) / 365 in
  let doy := doe - (365 * yoe + yoe / 4 - yoe / 100) in
  let mp := (5 * doy + 2) / 153 in
  let d := doy - (153 * mp + 2) / 5 + 1 in
  let m := if mp <? 10 then mp + 3 else mp - 9 in
  let y := yoe + era * 400 + (if m <=? 2 then 1 else 0) in
  (y, m, d).

Definition digits (width : nat) (n : Z) : string := pad_left width (fmt_d n).

(** The fields of a layout that [time.DateTime] is made of; any other
    character of a layout stands for itself. *)
Fixpoint format_fields (fuel : nat) (layout : string)
         (y mo d h mi s : Z) : string :=
  match fuel with
  | O => ""
  | S fuel' =>
      let field (width : nat) (n : Z) :=
        digits width n ++
        format_fields fuel' (substring width (String.length layout - width) layout)
                      y mo d h mi s in
      if prefix "2006" layout then field 4%nat y
      else if prefix "01" layout then field 2%nat mo
      else if prefix "02" layout then field 2%nat d
      else if prefix "15" layout then field 2%nat h
      else if prefix "04" layout then field 2%nat mi
      else if prefix "05" layout then field 2%nat s
      else match layout with
           | EmptyString => ""
           | String c rest => String c (format_fields fuel' rest y mo d h mi s)
           end
  end.

Definition Format (loc : Location) (t : time.Time) (layout : string) : string :=
  let secs := t / 1000000000 + zone_offset loc in
  let '(y, mo, d) := civil_from_days (secs / 86400) in
  let sod := secs mod 86400 in
  format_fields (S (String.length layout)) layout
                y mo d (sod / 3600) (sod mod 3600 / 60) (sod mod 60).

(** A system whose zone database knows Asia/Shanghai and UTC. *)
Definition LoadLocation (name : string) : result Location :=
  if String.eqb name "Asia/Shanghai" then Ok (FixedZone "CST" 28800)
  else if String.eqb name "UTC" then Ok (FixedZone "UTC" 0)
  else Err ErrLoadLocation.

(** A system without a zone database, as a container image without
    tzdata is. *)
Definition LoadLocation_no_tzdata (name : string) : result Location :=
  if String.eqb name "UTC" then Ok (FixedZone "UTC" 0) else Err ErrLoadLocation.

(** *** [url.Parse] *)

Definition is_ctl (c : ascii) : bool :=
  (nat_of_ascii c <? 32)%nat || (nat_of_ascii c =? 127)%nat.

Fixpoint has_ctl (s : string) : bool :=
  match s with
  | EmptyString => false
  | String c s' => is_ctl c || has_ctl s'
  end.

(** [url.Parse] refuses a text that holds a control character.  The texts
    of the examples have no other fault. *)
Definition url_Parse (rawURL : string) : result unit :=
  if has_ctl rawURL then Err ErrParseURL else Ok tt.

End Reference.

(** ** Worlds for the examples *)
Module Example.

(** A server that answers every request with the same body. *)
Definition answers (data : string) : Net :=
  fun _ => Ok {| Body := Ok data |}.

(** A server that cannot be reached. *)
Definition unreachable : Net := fun _ => Err ErrDo.


(** A decoder given by the bodies it knows; any other body is not JSON
    for a [Response]. *)
Fixpoint decode (known : list (string * Response)) (data : string)
  : result Response :=
  match known with
  | [] => Err ErrUnmarshal
  | (text, resp) :: known' =>
      if String.eqb text data then Ok resp else decode known' data
  end.

Definition quake (epicenter : string) (startAt : int64) : Event :=
  {| EventId := 1; Updates := 1;
     Latitude := 30.5%float; Longitude := 103.25%float; Depth := 10%float;
     Epicenter := epicenter; StartAt := startAt; UpdateAt := startAt;
     Magnitude := 5.5%float; InsideNet := 0; Sations := 0 |}.

Definition feed_reply (events : list Event) : Response :=
  {| Code := 0; Message := "ok"; Data := events |}.

(** 2023-11-14 22:13:20 UTC, and ten and forty minutes later. *)
Definition t0_ms : int64 := 1700000000000.
Definition ten_minutes_later : time.Time := time.UnixMilli (t0_ms + 600000).
Definition forty_minutes_later : time.Time := time.UnixMilli (t0_ms + 2400000).

(** The bodies of the feed in the examples. *)
Definition bodies : list (string * Response) :=
  [ ("one event", feed_reply [quake "Sichuan" t0_ms]);
    ("two events", feed_reply [quake "Sichuan" t0_ms; quake "Yunnan" (t0_ms - 1000)]);
    ("an older event", feed_reply [quake "Yunnan" (t0_ms - 1000)]);
    ("no events", feed_reply []) ].

(** The zone of the alerts. *)
Definition shanghai : Reference.Location := Reference.FixedZone "CST" 28800.

End Example.

(** ** The program *)

Section Program.

(** The flag [-key], after [flag.Parse]. *)
Variable key : string.

(** Library routines whose results the program takes as they come. *)
Variable Location : Type.
Variable LoadLocation : string -> result Location.
(** [t.In(loc).Format(layout)] *)
Variable Format : Location -> time.Time -> string -> string.
(** The verbs [%.1f] ([prec = 1]) and [%f] ([prec = 6]). *)
Variable fmt_f : nat -> float64 -> string.
(** [url.Parse(rawURL)]: whether the text is accepted as a URL. *)
Variable url_Parse : string -> result unit.
(** [json.Unmarshal(data, &resp)] for [resp] of type [Response]. *)
Variable json_Unmarshal : string -> result Response.

(** [http.NewRequestWithContext(ctx, method, url, nil)], for a method that
    is valid and a context that is not [nil]: it fails when the URL does
    not parse. *)
Definition NewRequestWithContext (method url : string) : result Request :=
  match url_Parse url with
  | Ok _ => Ok {| Method := method; URL := url |}
  | Err e => Err e
  end.

(** *** [query] *)

Definition query_url (lastTs : int64) : string :=
  "https://mobile-new.chinaeew.cn/v1/earlywarnings?start_at="
    ++ fmt_d lastTs ++ "&updates=4".

(** The result is a pointer: [None] is [nil]. *)
Definition query {T : Type} (Unmarshal : string -> result T)
           (net : Net) (lastTs : int64) : M (option T) :=
  (let url := query_url lastTs in
   req <- lift (NewRequestWithContext MethodGet url) ;;
   response <- client_Do net req ;;
   data <- lift (io_ReadAll (Body response)) ;;
   resp <- lift (Unmarshal data) ;;
   ret (Some resp))%go.

(** *** [loop], the Poller *)

(** The cases of the [select] of [loop], each with what the world is like
    when it fires: the network, and the clock read by [time.Since]. *)
Inductive PollerCase : Type :=
| ticker_C (net : Net) (now : time.Time)
| loop_ctx_Done.

(** The two [slog.Info] lines of [loop] that carry data. *)
Definition found_the_events (r : Response) : Effect :=
  slog_Info "found the events"
            [attr_int "num" (Z.of_nat (List.length (Data r)));
             attr_events "events" (Data r)].

Definition out_of_date (tt : time.Time) (ev : Event) : Effect :=
  slog_Info "the latest event is out of date"
            [attr_time "startAt" tt; attr_event "event" ev].

(** The body of [case <-ticker.C], from the cursor [lastTs]. *)
Definition loop_tick (net : Net) (now : time.Time)
           (lastTs : int64) (tr : Trace) : int64 * Trace :=
  match query json_Unmarshal net lastTs tr with
  | (Err err, tr) =>
      (lastTs, tr ++ [slog_Error "query data" [attr_err "err" err]])%list
  | (Ok resp, tr) =>
      match resp with
      | Some r =>
          match Data r with
          | ev0 :: _ =>
              let tr := (tr ++ [found_the_events r])%list in
              let lastTs := StartAt ev0 in
              let tt := time.UnixMilli lastTs in
              if time.Since now tt <=? 30 * time.Minute
              then (lastTs, tr ++ [chan_send ev0])%list
              else (lastTs, tr ++ [out_of_date tt ev0])%list
          | [] => (lastTs, tr)
          end
      | None => (lastTs, tr)
      end
  end.

(** A goroutine after some cases of its [select]: what it has done, and
    whether it has returned. *)
Record Poller : Type := {
  p_lastTs : int64;
  p_trace  : Trace;
  p_exited : bool
}.

Fixpoint loop_from (cases : list PollerCase) (lastTs : int64) (tr : Trace)
  : Poller :=
  match cases with
  | [] => {| p_lastTs := lastTs; p_trace := tr; p_exited := false |}
  | ticker_C net now :: rest =>
      let '(lastTs', tr') := loop_tick net now lastTs tr in
      loop_from rest lastTs' tr'
  | loop_ctx_Done :: _ =>
      {| p_lastTs := lastTs;
         p_trace := (tr ++ [slog_Info "loop exiting" []])%list;
         p_exited := true |}
  end.

Definition loop (cases : list PollerCase) : Poller := loop_from cases 0 [].

(** *** [notification], the Notifier *)

Definition title (tz : Location) (event : Event) : string :=
  Format tz (time.UnixMilli (StartAt event)) time.DateTime
    ++ " 有" ++ fmt_f 1 (Magnitude event) ++ "级地震发生了".

Definition body (event : Event) : string :=
  "地点:" ++ Epicenter event
    ++ ",东经:" ++ fmt_f 6 (Longitude event)
    ++ "°,北纬:" ++ fmt_f 6 (Latitude event)
    ++ "°,地震深度:" ++ fmt_f 1 (Depth event) ++ "公里".

Definition push_base : string := "https://api.day.app/".

Definition sink_url (tz : Location) (event : Event) : string :=
  push_base ++ key ++ "/" ++ title tz event ++ "/" ++ body event.

Definition fn (net : Net) (event : Event) : M unit :=
  (tz <- lift (LoadLocation "Asia/Shanghai") ;;
   let url := sink_url tz event in
   req <- lift (NewRequestWithContext MethodGet url) ;;
   response <- client_Do net req ;;
   data <- lift (io_ReadAll (Body response)) ;;
   emit (slog_Info "notification successfully" [attr_string "result" data]) ;;;
   ret tt)%go.

Inductive NotifierCase : Type :=
| notification_ctx_Done
| ch_recv (event : Event) (net : Net).

(** The body of [case event := <-ch]. *)
Definition notification_recv (net : Net) (event : Event) (tr : Trace) : Trace :=
  match fn net event tr with
  | (Err err, tr) =>
      (tr ++ [slog_Error "send notification failed" [attr_err "err" err]])%list
  | (Ok _, tr) => tr
  end.

Record Notifier : Type := {
  n_trace  : Trace;
  n_exited : bool
}.

Fixpoint notification_from (cases : list NotifierCase) (tr : Trace) : Notifier :=
  match cases with
  | [] => {| n_trace := tr; n_exited := false |}
  | notification_ctx_Done :: _ =>
      {| n_trace := (tr ++ [slog_Info "notification exiting..." []])%list;
         n_exited := true |}
  | ch_recv event net :: rest =>
      notification_from rest (notification_recv net event tr)
  end.

Definition notification (cases : list NotifierCase) : Notifier :=
  notification_from cases [].

(** *** [main] *)

Definition main : Trace :=
  if String.eqb key "" then [panic "key should have a value"]
  else [go_start go_notification; go_start go_loop;
        await_interrupt; cancel; slog_Info "exiting..." []].

(** *** Notions used in the statements below *)

(** What [query] returns. *)
Definition fetch (net : Net) (lastTs : int64) : result (option Response) :=
  fst (query json_Unmarshal net lastTs []).

(** The returns of [query] with an error, one constructor for each. *)
Inductive query_failure (net : Net) (lastTs : int64) : error -> Prop :=
| feed_request_fails e :
    NewRequestWithContext MethodGet (query_url lastTs) = Err e ->
    query_failure net lastTs e
| feed_transport_fails req e :
    NewRequestWithContext MethodGet (query_url lastTs) = Ok req ->
    net req = Err e ->
    query_failure net lastTs e
| feed_read_fails req response e :
    NewRequestWithContext MethodGet (query_url lastTs) = Ok req ->
    net req = Ok response ->
    io_ReadAll (Body response) = Err e ->
    query_failure net lastTs e
| feed_decode_fails req response data e :
    NewRequestWithContext MethodGet (query_url lastTs) = Ok req ->
    net req = Ok response ->
    io_ReadAll (Body response) = Ok data ->
    json_Unmarshal data = Err e ->
    query_failure net lastTs e.

(** The returns of [fn] with an error, one constructor for each. *)
Inductive dispatch_failure (net : Net) (event : Event) : error -> Prop :=
| zone_fails e :
    LoadLocation "Asia/Shanghai" = Err e ->
    dispatch_failure net event e
| sink_request_fails tz e :
    LoadLocation "Asia/Shanghai" = Ok tz ->
    NewRequestWithContext MethodGet (sink_url tz event) = Err e ->
    dispatch_failure net event e
| sink_transport_fails tz req e :
    LoadLocation "Asia/Shanghai" = Ok tz ->
    NewRequestWithContext MethodGet (sink_url tz event) = Ok req ->
    net req = Err e ->
    dispatch_failure net event e
| sink_read_fails tz req response e :
    LoadLocation "Asia/Shanghai" = Ok tz ->
    NewRequestWithContext MethodGet (sink_url tz event) = Ok req ->
    net req = Ok response ->
    io_ReadAll (Body response) = Err e ->
    dispatch_failure net event e.

(** What [fn] returns. *)
Definition dispatch (net : Net) (event : Event) : result unit :=
  fst (fn net event []).



(** The path of a URL, given the text that follows scheme and host: it
    ends before the first [?] (where the query starts) or [#] (where the
    fragment starts), as [url.Parse] and RFC 3986 have it. *)
Fixpoint url_path (rest : string) : string :=
  match rest with
  | EmptyString => ""
  | String c rest' =>
      if Ascii.eqb c "?" || Ascii.eqb c "#" then ""
      else String c (url_path rest')
  end.

(** The segments of the path of a URL of the push service. *)
Definition path_segments (url : string) : option (list string) :=
  option_map (fun rest => Split (url_path rest) "/") (CutPrefix url push_base).

(** A text without any of the bytes [/], [?] and [#], which end a segment
    or the path. *)
Definition plain (s : string) : bool :=
  free_of "/" s && free_of "?" s && free_of "#" s.

(** [segment] is a path-safe encoding of [text]. *)
Definition path_safe_encoding (segment text : string) : Prop :=
  path_safe segment = true /\ pct_decode segment = Some text.

(** The path of the URL of the sink is [<key>/<title>/<body>] with title
    and body path-safe encodings of the texts of the alert. *)
Definition sink_url_encodes (tz : Location) (event : Event) : Prop :=
  exists t b,
    path_segments (sink_url tz event) = Some [key; t; b]
    /\ path_safe_encoding t (title tz event)
    /\ path_safe_encoding b (body event).

(** The ticks among the cases of a run of [loop]. *)
Fixpoint ticks (cases : list PollerCase) : nat :=
  match cases with
  | [] => O
  | ticker_C _ _ :: rest => S (ticks rest)
  | loop_ctx_Done :: rest => ticks rest
  end.

(** The lines written by [slog] in a trace. *)
Fixpoint log_lines (tr : Trace) : nat :=
  match tr with
  | [] => O
  | (slog_Info _ _ | slog_Error _ _) :: tr' => S (log_lines tr')
  | _ :: tr' => log_lines tr'
  end.

(** Events arriving on the channel one after the other, each with the
    network as it is when the event is dispatched. *)
Definition deliveries (inputs : list (Event * Net)) : list NotifierCase :=
  map (fun input => ch_recv (fst input) (snd input)) inputs.

(** [l1] is [l2] with some elements left out. *)
Inductive subsequence {A : Type} : list A -> list A -> Prop :=
| subsequence_nil : subsequence [] []
| subsequence_keep x l1 l2 : subsequence l1 l2 -> subsequence (x :: l1) (x :: l2)
| subsequence_drop x l1 l2 : subsequence l1 l2 -> subsequence l1 (x :: l2).

(** *** The earlier revision of [loop]

    The repository also holds the program as it was before the staleness
    test and the flags were added.  Its [query] is the one above (with
    [http.DefaultClient] for [client]); its [loop] sends the first event of
    every reply that is not empty. *)

Definition no_found_event : Effect := slog_Info "no found event" [].

(** The body of [case <-ticker.C] of the earlier [loop]. *)
Definition legacy_loop_tick (net : Net) (lastTs : int64) (tr : Trace)
  : int64 * Trace :=
  match query json_Unmarshal net lastTs tr with
  | (Err err, tr) =>
      (lastTs, tr ++ [slog_Error "query data" [attr_err "err" err]])%list
  | (Ok resp, tr) =>
      match resp with
      | Some r =>
          match Data r with
          | ev0 :: _ =>
              let tr := (tr ++ [found_the_events r])%list in
              let lastTs := StartAt ev0 in
              (lastTs, tr ++ [chan_send ev0])%list
          | [] => (lastTs, tr ++ [no_found_event])%list
          end
      | None => (lastTs, tr ++ [no_found_event])%list
      end
  end.

Fixpoint legacy_loop_from (cases : list PollerCase) (lastTs : int64) (tr : Trace)
  : Poller :=
  match cases with
  | [] => {| p_lastTs := lastTs; p_trace := tr; p_exited := false |}
  | ticker_C net _ :: rest =>
      let '(lastTs', tr') := legacy_loop_tick net lastTs tr in
      legacy_loop_from rest lastTs' tr'
  | loop_ctx_Done :: _ =>
      {| p_lastTs := lastTs;
         p_trace := (tr ++ [slog_Info "loop exiting" []])%list;
         p_exited := true |}
  end.

Definition legacy_loop (cases : list PollerCase) : Poller :=
  legacy_loop_from cases 0 [].

(** ** Properties *)

(** *** The clock *)

Lemma UnixMilli_ns (msec : int64) : time.UnixMilli msec = msec * 1000000.
Proof.
  unfold time.UnixMilli, time.Unix.
  pose proof (Z.quot_rem' msec 1000). lia.
Qed.

Lemma thirty_minutes : 30 * time.Minute = 1800000000000.
Proof. reflexivity. Qed.

(** Thirty minutes are far from the ends of [Duration], so the test of
    [loop] compares the true difference. *)
Lemma Since_thirty_minutes (now t : time.Time) :
  (time.Since now t <=? 30 * time.Minute) = (now - t <=? 30 * time.Minute).
Proof.
  rewrite thirty_minutes. unfold time.Since, time.Sub.
  change time.minDuration with (-9223372036854775808).
  change time.maxDuration with 9223372036854775807.
  cbv zeta.
  destruct (Z.ltb_spec (now - t) (-9223372036854775808)).
  - symmetry. apply Z.leb_le. lia.
  - destruct (Z.ltb_spec 9223372036854775807 (now - t)).
    + symmetry. rewrite Z.leb_gt. lia.
    + reflexivity.
Qed.

(** *** Traces *)

Lemma sends_app (tr1 tr2 : Trace) :
  sends (tr1 ++ tr2)%list = (sends tr1 ++ sends tr2)%list.
Proof.
  induction tr1 as [| e tr1 IH]; simpl; [reflexivity |].
  destruct e; simpl; rewrite IH; reflexivity.
Qed.

Lemma requests_app (tr1 tr2 : Trace) :
  requests (tr1 ++ tr2)%list = (requests tr1 ++ requests tr2)%list.
Proof.
  induction tr1 as [| e tr1 IH]; simpl; [reflexivity |].
  destruct e; simpl; rewrite IH; reflexivity.
Qed.

Lemma sends_http_Do (reqs : list Request) : sends (map http_Do reqs) = [].
Proof. induction reqs; simpl; auto. Qed.

(** *** [query] *)

(** [query] adds at most one request to the trace and nothing else, and
    its result does not depend on what happened before. *)
Lemma query_trace (net : Net) (lastTs : int64) (tr : Trace) :
  exists reqs,
    query json_Unmarshal net lastTs tr
    = (fetch net lastTs, (tr ++ map http_Do reqs)%list)
    /\ (List.length reqs <= 1)%nat.
Proof.
  unfold fetch, query, bind, lift, client_Do, ret.
  destruct (NewRequestWithContext MethodGet (query_url lastTs)) as [req | e].
  - exists [req]. split; [| simpl; lia].
    destruct (net req) as [response | e]; [| reflexivity].
    destruct (io_ReadAll (Body response)) as [data | e]; [| reflexivity].
    destruct (json_Unmarshal data); reflexivity.
  - exists []. rewrite app_nil_r. split; [reflexivity | simpl; lia].
Qed.

(** [query] fails exactly in the four ways listed. *)
Lemma fetch_Err_iff (net : Net) (lastTs : int64) (e : error) :
  fetch net lastTs = Err e <-> query_failure net lastTs e.
Proof.
  unfold fetch, query, bind, lift, client_Do, ret. split.
  - destruct (NewRequestWithContext MethodGet (query_url lastTs))
      as [req | e1] eqn:Hreq; simpl.
    + destruct (net req) as [response | e2] eqn:Hdo; simpl.
      * destruct (io_ReadAll (Body response)) as [data | e3] eqn:Hread; simpl.
        -- destruct (json_Unmarshal data) as [resp | e4] eqn:Hjson; simpl.
           ++ discriminate.
           ++ intros [= <-]. eapply feed_decode_fails; eauto.
        -- intros [= <-]. eapply feed_read_fails; eauto.
      * intros [= <-]. eapply feed_transport_fails; eauto.
    + intros [= <-]. apply feed_request_fails; assumption.
  - intros H. destruct H as [e H1 | req e H1 H2 | req response e H1 H2 H3
                             | req response data e H1 H2 H3 H4].
    + rewrite H1. reflexivity.
    + rewrite H1. simpl. rewrite H2. reflexivity.
    + rewrite H1. simpl. rewrite H2. simpl. rewrite H3. reflexivity.
    + rewrite H1. simpl. rewrite H2. simpl. rewrite H3. simpl.
      rewrite H4. reflexivity.
Qed.

(** When [query] returns no error its pointer is not [nil]. *)
Lemma fetch_Ok_not_nil (net : Net) (lastTs : int64) :
  fetch net lastTs <> Ok None.
Proof.
  unfold fetch, query, bind, lift, client_Do, ret.
  destruct (NewRequestWithContext MethodGet (query_url lastTs)) as [req | e];
    simpl; [| discriminate].
  destruct (net req) as [response | e]; simpl; [| discriminate].
  destruct (io_ReadAll (Body response)) as [data | e]; simpl; [| discriminate].
  destruct (json_Unmarshal data); simpl; discriminate.
Qed.

(** *** [loop] *)

Lemma loop_from_app (cases1 cases2 : list PollerCase) (l : int64) (tr : Trace) :
  p_exited (loop_from cases1 l tr) = false ->
  loop_from (cases1 ++ cases2) l tr
  = loop_from cases2 (p_lastTs (loop_from cases1 l tr))
              (p_trace (loop_from cases1 l tr)).
Proof.
  revert l tr. induction cases1 as [| c cases1 IH]; intros l tr H; simpl in *.
  - reflexivity.
  - destruct c as [net now |].
    + destruct (loop_tick net now l tr) as [l' tr']. apply IH. exact H.
    + discriminate.
Qed.

(** Once [loop] has returned nothing more happens. *)
Lemma loop_from_exited (cases1 cases2 : list PollerCase) (l : int64) (tr : Trace) :
  p_exited (loop_from cases1 l tr) = true ->
  loop_from (cases1 ++ cases2) l tr = loop_from cases1 l tr.
Proof.
  revert l tr. induction cases1 as [| c cases1 IH]; intros l tr H; simpl in *.
  - discriminate.
  - destruct c as [net now |].
    + destruct (loop_tick net now l tr) as [l' tr']. apply IH. exact H.
    + reflexivity.
Qed.

(** A tick never makes [loop] return. *)
Lemma loop_snoc_tick (cases : list PollerCase) (net : Net) (now : time.Time) :
  p_exited (loop cases) = false ->
  loop (cases ++ [ticker_C net now])
  = {| p_lastTs := fst (loop_tick net now (p_lastTs (loop cases))
                                  (p_trace (loop cases)));
       p_trace := snd (loop_tick net now (p_lastTs (loop cases))
                                 (p_trace (loop cases)));
       p_exited := false |}.
Proof.
  intros H. unfold loop in *. rewrite loop_from_app by exact H.
  simpl. destruct (loop_tick _ _ _ _). reflexivity.
Qed.

(** The four ways through the body of [case <-ticker.C]. *)
Lemma loop_tick_error net now l tr e :
  fetch net l = Err e ->
  exists reqs,
    loop_tick net now l tr
    = (l, (tr ++ map http_Do reqs
              ++ [slog_Error "query data" [attr_err "err" e]])%list).
Proof.
  intros Hf. destruct (query_trace net l tr) as (reqs & Hq & _).
  exists reqs. unfold loop_tick. rewrite Hq, Hf, <- app_assoc. reflexivity.
Qed.

Lemma loop_tick_empty net now l tr r :
  fetch net l = Ok (Some r) -> Data r = [] ->
  exists reqs, loop_tick net now l tr = (l, (tr ++ map http_Do reqs)%list).
Proof.
  intros Hf Hd. destruct (query_trace net l tr) as (reqs & Hq & _).
  exists reqs. unfold loop_tick. rewrite Hq, Hf, Hd. reflexivity.
Qed.

Lemma loop_tick_fresh net now l tr r ev rest :
  fetch net l = Ok (Some r) -> Data r = ev :: rest ->
  now - time.UnixMilli (StartAt ev) <= 30 * time.Minute ->
  exists reqs,
    loop_tick net now l tr
    = (StartAt ev,
       (tr ++ map http_Do reqs ++ [found_the_events r; chan_send ev])%list).
Proof.
  intros Hf Hd Hage. destruct (query_trace net l tr) as (reqs & Hq & _).
  exists reqs. unfold loop_tick. rewrite Hq, Hf, Hd.
  rewrite Since_thirty_minutes.
  destruct (Z.leb_spec (now - time.UnixMilli (StartAt ev)) (30 * time.Minute));
    [| lia].
  rewrite <- !app_assoc. reflexivity.
Qed.

Lemma loop_tick_stale net now l tr r ev rest :
  fetch net l = Ok (Some r) -> Data r = ev :: rest ->
  30 * time.Minute < now - time.UnixMilli (StartAt ev) ->
  exists reqs,
    loop_tick net now l tr
    = (StartAt ev,
       (tr ++ map http_Do reqs
           ++ [found_the_events r;
               out_of_date (time.UnixMilli (StartAt ev)) ev])%list).
Proof.
  intros Hf Hd Hage. destruct (query_trace net l tr) as (reqs & Hq & _).
  exists reqs. unfold loop_tick. rewrite Hq, Hf, Hd.
  rewrite Since_thirty_minutes.
  destruct (Z.leb_spec (now - time.UnixMilli (StartAt ev)) (30 * time.Minute));
    [lia |].
  rewrite <- !app_assoc. reflexivity.
Qed.

(** Rewrites the events sent in a trace that was extended at its end. *)
Ltac count_sends :=
  repeat rewrite sends_app; rewrite ?sends_http_Do; simpl;
  rewrite ?app_nil_r.

(** A tick that finds a fresh first event, in a run. *)
Lemma loop_snoc_fresh
      (cases : list PollerCase) (net : Net) (now : time.Time)
      (r : Response) (ev : Event) (rest : list Event) :
  p_exited (loop cases) = false ->
  fetch net (p_lastTs (loop cases)) = Ok (Some r) ->
  Data r = ev :: rest ->
  now - time.UnixMilli (StartAt ev) <= 30 * time.Minute ->
  exists reqs,
    loop (cases ++ [ticker_C net now])
    = {| p_lastTs := StartAt ev;
         p_trace := (p_trace (loop cases) ++ map http_Do reqs
                     ++ [found_the_events r; chan_send ev])%list;
         p_exited := false |}.
Proof.
  intros Hrun Hf Hd Hage. rewrite loop_snoc_tick by exact Hrun.
  destruct (loop_tick_fresh net now (p_lastTs (loop cases))
                            (p_trace (loop cases)) r ev rest Hf Hd Hage)
    as (reqs & ->).
  exists reqs. reflexivity.
Qed.

(** C1.  Whenever a tick's fetch succeeds with a reply that is not empty
    and whose first event started at most thirty minutes before the clock
    reading (so in particular within thirty minutes of it), the Poller
    sends exactly one event on the channel in that tick, the first of the
    reply, and the cursor becomes that event's [startAt]. *)
Theorem loop_emits_fresh_first_event
        (cases : list PollerCase) (net : Net) (now : time.Time)
        (r : Response) (ev : Event) (rest : list Event) :
  p_exited (loop cases) = false ->
  fetch net (p_lastTs (loop cases)) = Ok (Some r) ->
  Data r = ev :: rest ->
  now - time.UnixMilli (StartAt ev) <= 30 * time.Minute ->
  sends (p_trace (loop (cases ++ [ticker_C net now])))
  = (sends (p_trace (loop cases)) ++ [ev])%list
  /\ p_lastTs (loop (cases ++ [ticker_C net now])) = StartAt ev.
Proof.
  intros Hrun Hf Hd Hage.
  destruct (loop_snoc_fresh cases net now r ev rest Hrun Hf Hd Hage)
    as (reqs & ->).
  simpl. split; [| reflexivity].
  count_sends. reflexivity.
Qed.

(** C2.  Whenever a tick's fetch succeeds with a reply that is not empty
    and whose first event started more than thirty minutes before the
    clock reading, the cursor still becomes that event's [startAt], and
    nothing is sent on the channel in that tick. *)
Theorem loop_drops_stale_first_event
        (cases : list PollerCase) (net : Net) (now : time.Time)
        (r : Response) (ev : Event) (rest : list Event) :
  p_exited (loop cases) = false ->
  fetch net (p_lastTs (loop cases)) = Ok (Some r) ->
  Data r = ev :: rest ->
  30 * time.Minute < now - time.UnixMilli (StartAt ev) ->
  sends (p_trace (loop (cases ++ [ticker_C net now])))
  = sends (p_trace (loop cases))
  /\ p_lastTs (loop (cases ++ [ticker_C net now])) = StartAt ev.
Proof.
  intros Hrun Hf Hd Hage. rewrite loop_snoc_tick by exact Hrun.
  destruct (loop_tick_stale net now (p_lastTs (loop cases))
                            (p_trace (loop cases)) r ev rest Hf Hd Hage)
    as (reqs & ->).
  simpl. split; [| reflexivity]. count_sends. reflexivity.
Qed.

(** C3.  Whenever a tick's fetch succeeds with a reply that holds no
    events, the tick is skipped: the cursor keeps its value and nothing is
    sent on the channel. *)
Theorem loop_skips_empty_reply
        (cases : list PollerCase) (net : Net) (now : time.Time) (r : Response) :
  p_exited (loop cases) = false ->
  fetch net (p_lastTs (loop cases)) = Ok (Some r) ->
  Data r = [] ->
  sends (p_trace (loop (cases ++ [ticker_C net now])))
  = sends (p_trace (loop cases))
  /\ p_lastTs (loop (cases ++ [ticker_C net now])) = p_lastTs (loop cases).
Proof.
  intros Hrun Hf Hd. rewrite loop_snoc_tick by exact Hrun.
  destruct (loop_tick_empty net now (p_lastTs (loop cases))
                            (p_trace (loop cases)) r Hf Hd)
    as (reqs & ->).
  simpl. split; [| reflexivity]. count_sends. reflexivity.
Qed.

(** C4.  Whenever the fetch of a tick fails, in request construction, in
    transport, in reading the body or in decoding it, the error is logged
    and goes no further: the cursor keeps its value, nothing is sent on
    the channel, the loop has not returned, and the next tick is served
    from the same cursor. *)
Theorem loop_survives_query_failure
        (cases : list PollerCase) (net : Net) (now : time.Time) (e : error) :
  p_exited (loop cases) = false ->
  query_failure net (p_lastTs (loop cases)) e ->
  let after := loop (cases ++ [ticker_C net now]) in
  p_lastTs after = p_lastTs (loop cases)
  /\ sends (p_trace after) = sends (p_trace (loop cases))
  /\ last (p_trace after) cancel = slog_Error "query data" [attr_err "err" e]
  /\ p_exited after = false
  /\ forall net' now',
       loop (cases ++ [ticker_C net now; ticker_C net' now'])
       = loop_from [ticker_C net' now'] (p_lastTs (loop cases)) (p_trace after).
Proof.
  intros Hrun Hfail after. apply fetch_Err_iff in Hfail.
  assert (Hafter : exists reqs,
             after = {| p_lastTs := p_lastTs (loop cases);
                        p_trace := (p_trace (loop cases) ++ map http_Do reqs
                                    ++ [slog_Error "query data" [attr_err "err" e]])%list;
                        p_exited := false |}).
  { unfold after. rewrite loop_snoc_tick by exact Hrun.
    destruct (loop_tick_error net now (p_lastTs (loop cases))
                              (p_trace (loop cases)) e Hfail) as (reqs & ->).
    exists reqs. reflexivity. }
  destruct Hafter as (reqs & Hafter).
  repeat split.
  - rewrite Hafter. reflexivity.
  - rewrite Hafter. simpl. count_sends. reflexivity.
  - rewrite Hafter. simpl. rewrite app_assoc. apply last_last.
  - rewrite Hafter. reflexivity.
  - intros net' now'.
    change [ticker_C net now; ticker_C net' now']
      with ([ticker_C net now] ++ [ticker_C net' now'])%list.
    rewrite app_assoc. unfold loop at 1.
    rewrite loop_from_app; fold (loop (cases ++ [ticker_C net now])); fold after.
    + rewrite Hafter. reflexivity.
    + rewrite Hafter. reflexivity.
Qed.

(** The cursor after one more case of the [select]. *)
Lemma cursor_step (cases : list PollerCase) (c : PollerCase) :
  p_lastTs (loop (cases ++ [c])) = p_lastTs (loop cases)
  \/ exists net now r ev rest,
      c = ticker_C net now
      /\ fetch net (p_lastTs (loop cases)) = Ok (Some r)
      /\ Data r = ev :: rest
      /\ p_lastTs (loop (cases ++ [c])) = StartAt ev.
Proof.
  destruct (p_exited (loop cases)) eqn:Hrun.
  - left. unfold loop in *. rewrite loop_from_exited by exact Hrun. reflexivity.
  - destruct c as [net now |].
    + rewrite loop_snoc_tick by exact Hrun. simpl.
      destruct (fetch net (p_lastTs (loop cases))) as [[r |] | e] eqn:Hf.
      * destruct (Data r) as [| ev rest] eqn:Hd.
        -- left.
           destruct (loop_tick_empty net now (p_lastTs (loop cases))
                                     (p_trace (loop cases)) r Hf Hd)
             as (reqs & ->). reflexivity.
        -- right. exists net, now, r, ev, rest. repeat split; try assumption.
           destruct (Z_le_gt_dec (now - time.UnixMilli (StartAt ev))
                                 (30 * time.Minute)) as [Hage | Hage].
           ++ destruct (loop_tick_fresh net now (p_lastTs (loop cases))
                          (p_trace (loop cases)) r ev rest Hf Hd Hage)
                as (reqs & ->). reflexivity.
           ++ destruct (loop_tick_stale net now (p_lastTs (loop cases))
                          (p_trace (loop cases)) r ev rest Hf Hd
                          ltac:(lia)) as (reqs & ->). reflexivity.
      * exfalso. exact (fetch_Ok_not_nil _ _ Hf).
      * left.
        destruct (loop_tick_error net now (p_lastTs (loop cases))
                                  (p_trace (loop cases)) e Hf)
          as (reqs & ->). reflexivity.
    + left. unfold loop in *. rewrite loop_from_app by exact Hrun. reflexivity.
Qed.


(** C10.  The Poller compares nothing with the cursor.  A tick whose fetch
    succeeds with a first event that starts exactly at the cursor and at
    most thirty minutes before the clock reading sends that event; and two
    ticks in a row to which the feed answers with the same first event,
    both times not older than thirty minutes, send it twice. *)
Theorem loop_emits_again_at_cursor
        (cases : list PollerCase) (ev : Event) :
  p_exited (loop cases) = false ->
  (forall net now r rest,
      fetch net (p_lastTs (loop cases)) = Ok (Some r) ->
      Data r = ev :: rest ->
      StartAt ev = p_lastTs (loop cases) ->
      now - time.UnixMilli (StartAt ev) <= 30 * time.Minute ->
      sends (p_trace (loop (cases ++ [ticker_C net now])))
      = (sends (p_trace (loop cases)) ++ [ev])%list)
  /\ (forall net1 now1 r1 rest1 net2 now2 r2 rest2,
        fetch net1 (p_lastTs (loop cases)) = Ok (Some r1) ->
        Data r1 = ev :: rest1 ->
        now1 - time.UnixMilli (StartAt ev) <= 30 * time.Minute ->
        fetch net2 (StartAt ev) = Ok (Some r2) ->
        Data r2 = ev :: rest2 ->
        now2 - time.UnixMilli (StartAt ev) <= 30 * time.Minute ->
        sends (p_trace (loop (cases ++ [ticker_C net1 now1; ticker_C net2 now2])))
        = (sends (p_trace (loop cases)) ++ [ev; ev])%list).
Proof.
  intros Hrun. split.
  - intros net now r rest Hf Hd _ Hage.
    destruct (loop_snoc_fresh cases net now r ev rest Hrun Hf Hd Hage)
      as (reqs & ->).
    simpl. count_sends. reflexivity.
  - intros net1 now1 r1 rest1 net2 now2 r2 rest2 Hf1 Hd1 Hage1 Hf2 Hd2 Hage2.
    destruct (loop_snoc_fresh cases net1 now1 r1 ev rest1 Hrun Hf1 Hd1 Hage1)
      as (reqs1 & H1).
    assert (Hrun1 : p_exited (loop (cases ++ [ticker_C net1 now1])) = false)
      by (rewrite H1; reflexivity).
    assert (Hcur : p_lastTs (loop (cases ++ [ticker_C net1 now1])) = StartAt ev)
      by (rewrite H1; reflexivity).
    rewrite <- Hcur in Hf2.
    destruct (loop_snoc_fresh _ net2 now2 r2 ev rest2 Hrun1 Hf2 Hd2 Hage2)
      as (reqs2 & H2).
    rewrite <- app_assoc in H2. simpl in H2.
    rewrite H2, H1. simpl. count_sends. rewrite <- app_assoc. reflexivity.
Qed.

(** *** Texts *)

Lemma prefix_app (x t : string) : prefix x (x ++ t) = true.
Proof.
  induction x as [| c x IH]; simpl; [destruct t; reflexivity |].
  destruct (ascii_dec c c); [exact IH | contradiction].
Qed.

Lemma Contains_prefix (s x : string) : prefix x s = true -> Contains s x = true.
Proof. intros H. destruct s; cbn [Contains]; rewrite H; reflexivity. Qed.

Lemma Contains_here (x t : string) : Contains (x ++ t) x = true.
Proof. apply Contains_prefix, prefix_app. Qed.

Lemma Contains_later (a t x : string) :
  Contains t x = true -> Contains (a ++ t) x = true.
Proof.
  intros H. induction a as [| c a IH]; simpl; [exact H |].
  rewrite IH. apply orb_true_r.
Qed.

Lemma Contains_refl (x : string) : Contains x x = true.
Proof.
  apply Contains_prefix. induction x as [| c x IH]; simpl; [reflexivity |].
  destruct (ascii_dec c c); [exact IH | contradiction].
Qed.

Create HintDb texts.
#[local] Hint Resolve Contains_here Contains_later Contains_refl : texts.

Lemma CutPrefix_app (pre s : string) : CutPrefix (pre ++ s) pre = Some s.
Proof.
  induction pre as [| c pre IH]; simpl; [destruct s; reflexivity |].
  rewrite Ascii.eqb_refl. exact IH.
Qed.

Lemma Split_free (sep : ascii) (a : string) :
  free_of sep a = true -> Split a sep = [a].
Proof.
  induction a as [| c a IH]; simpl; [reflexivity |].
  intros H. apply andb_true_iff in H. destruct H as [Hc Ha].
  apply negb_true_iff in Hc. rewrite Hc, (IH Ha). reflexivity.
Qed.

Lemma Split_app (sep : ascii) (a b : string) :
  free_of sep a = true ->
  Split (a ++ String sep b) sep = a :: Split b sep.
Proof.
  induction a as [| c a IH]; simpl.
  - intros _. rewrite Ascii.eqb_refl. reflexivity.
  - intros H. apply andb_true_iff in H. destruct H as [Hc Ha].
    apply negb_true_iff in Hc. rewrite Hc, (IH Ha). reflexivity.
Qed.

(** *** [notification] *)

Lemma notification_from_app (cases1 cases2 : list NotifierCase) (tr : Trace) :
  n_exited (notification_from cases1 tr) = false ->
  notification_from (cases1 ++ cases2) tr
  = notification_from cases2 (n_trace (notification_from cases1 tr)).
Proof.
  revert tr. induction cases1 as [| c cases1 IH]; intros tr H; simpl in *.
  - reflexivity.
  - destruct c as [| event net]; [discriminate | apply IH; exact H].
Qed.

(** What [fn] does does not depend on what happened before. *)
Lemma fn_trace (net : Net) (event : Event) (tr : Trace) :
  fn net event tr
  = (dispatch net event, (tr ++ snd (fn net event []))%list).
Proof.
  unfold dispatch, fn, bind, lift, client_Do, emit, ret.
  destruct (LoadLocation "Asia/Shanghai") as [tz | e]; simpl;
    [| rewrite app_nil_r; reflexivity].
  destruct (NewRequestWithContext MethodGet (sink_url tz event)) as [req | e];
    simpl; [| rewrite app_nil_r; reflexivity].
  destruct (net req) as [response | e]; simpl; [| reflexivity].
  destruct (io_ReadAll (Body response)) as [data | e]; simpl; [| reflexivity].
  rewrite <- app_assoc. reflexivity.
Qed.

(** A failing [fn] leaves at most one request behind, and nothing else. *)
Lemma fn_failure (net : Net) (event : Event) (e : error) :
  dispatch_failure net event e ->
  exists reqs,
    fn net event [] = (Err e, map http_Do reqs) /\ (List.length reqs <= 1)%nat.
Proof.
  intros H. unfold fn, bind, lift, client_Do, emit, ret.
  destruct H as [e H1 | tz e H1 H2 | tz req e H1 H2 H3
                 | tz req response e H1 H2 H3 H4]; rewrite H1.
  - exists []. split; [reflexivity | simpl; lia].
  - rewrite H2. exists []. split; [reflexivity | simpl; lia].
  - rewrite H2. simpl. rewrite H3. exists [req].
    split; [reflexivity | simpl; lia].
  - rewrite H2. simpl. rewrite H3. simpl. rewrite H4. exists [req].
    split; [reflexivity | simpl; lia].
Qed.

(** [fn] fails exactly in the four ways listed. *)
Lemma dispatch_Err_iff (net : Net) (event : Event) (e : error) :
  dispatch net event = Err e <-> dispatch_failure net event e.
Proof.
  split.
  - unfold dispatch, fn, bind, lift, client_Do, emit, ret.
    destruct (LoadLocation "Asia/Shanghai") as [tz | e1] eqn:H1; simpl.
    + destruct (NewRequestWithContext MethodGet (sink_url tz event))
        as [req | e2] eqn:H2; simpl.
      * destruct (net req) as [response | e3] eqn:H3; simpl.
        -- destruct (io_ReadAll (Body response)) as [data | e4] eqn:H4; simpl.
           ++ discriminate.
           ++ intros [= <-]. eapply sink_read_fails; eauto.
        -- intros [= <-]. eapply sink_transport_fails; eauto.
      * intros [= <-]. eapply sink_request_fails; eauto.
    + intros [= <-]. apply zone_fails. exact H1.
  - intros H. destruct (fn_failure net event e H) as (reqs & Hfn & _).
    unfold dispatch. rewrite Hfn. reflexivity.
Qed.

(** C6.  When the zone Asia/Shanghai is found, the message that the
    Notifier makes of an event holds the start time of the event in that
    zone in the layout [2006-01-02 15:04:05], the magnitude with one
    decimal, the name of the epicenter, the longitude, the latitude and the
    depth with one decimal; and this message is the URL of the request that
    goes out. *)
Theorem message_contents (event : Event) (tz : Location) :
  LoadLocation "Asia/Shanghai" = Ok tz ->
  let at_start := Format tz (time.UnixMilli (StartAt event)) time.DateTime in
  (Contains (title tz event) at_start = true
   /\ Contains (title tz event) (fmt_f 1 (Magnitude event)) = true
   /\ Contains (body event) (Epicenter event) = true
   /\ Contains (body event) (fmt_f 6 (Longitude event)) = true
   /\ Contains (body event) (fmt_f 6 (Latitude event)) = true
   /\ Contains (body event) (fmt_f 1 (Depth event)) = true)
  /\ (Contains (sink_url tz event) (title tz event) = true
      /\ Contains (sink_url tz event) (body event) = true)
  /\ forall net tr req,
      NewRequestWithContext MethodGet (sink_url tz event) = Ok req ->
      URL req = sink_url tz event
      /\ requests (snd (fn net event tr)) = (requests tr ++ [req])%list.
Proof.
  intros Htz at_start. split; [| split].
  - unfold title, body, at_start. repeat split; auto 12 with texts.
  - unfold sink_url. split; auto 12 with texts.
  - intros net tr req Hreq. split.
    + unfold NewRequestWithContext in Hreq.
      destruct (url_Parse (sink_url tz event)); [| discriminate].
      injection Hreq as <-. reflexivity.
    + unfold fn, bind, lift, client_Do, emit, ret. rewrite Htz, Hreq. simpl.
      destruct (net req) as [response | e]; simpl.
      * destruct (io_ReadAll (Body response)) as [data | e]; simpl;
          repeat rewrite requests_app; simpl; rewrite ?app_nil_r; reflexivity.
      * rewrite requests_app. reflexivity.
Qed.

(** C7.  Whenever the dispatch of an event fails, in finding the zone, in
    request construction, in transport or in reading the body, the Notifier
    logs the error and lets the event go: it has sent at most one request
    for it, it has not returned, and the event received next is handed to
    [fn] as any other. *)
Theorem notification_survives_dispatch_failure
        (cases : list NotifierCase) (net : Net) (event : Event) (e : error) :
  n_exited (notification cases) = false ->
  dispatch_failure net event e ->
  let after := notification (cases ++ [ch_recv event net]) in
  (exists reqs,
      n_trace after
      = (n_trace (notification cases) ++ map http_Do reqs
         ++ [slog_Error "send notification failed" [attr_err "err" e]])%list
      /\ (List.length reqs <= 1)%nat)
  /\ n_exited after = false
  /\ forall event' net',
      notification (cases ++ [ch_recv event net; ch_recv event' net'])
      = {| n_trace := notification_recv net' event' (n_trace after);
           n_exited := false |}.
Proof.
  intros Hrun Hfail after.
  destruct (fn_failure net event e Hfail) as (reqs & Hfn & Hlen).
  assert (Hafter : after
                   = {| n_trace := (n_trace (notification cases) ++ map http_Do reqs
                                    ++ [slog_Error "send notification failed"
                                                   [attr_err "err" e]])%list;
                        n_exited := false |}).
  { unfold after, notification in *. rewrite notification_from_app by exact Hrun.
    simpl. unfold notification_recv. rewrite fn_trace.
    unfold dispatch. rewrite Hfn. simpl. rewrite <- app_assoc. reflexivity. }
  split; [| split].
  - exists reqs. rewrite Hafter. split; [reflexivity | exact Hlen].
  - rewrite Hafter. reflexivity.
  - intros event' net'.
    change [ch_recv event net; ch_recv event' net']
      with ([ch_recv event net] ++ [ch_recv event' net'])%list.
    rewrite app_assoc. unfold notification at 1.
    rewrite notification_from_app;
      fold (notification (cases ++ [ch_recv event net])); fold after.
    + reflexivity.
    + rewrite Hafter. reflexivity.
Qed.

Lemma free_of_app (c : ascii) (a b : string) :
  free_of c (a ++ b) = free_of c a && free_of c b.
Proof.
  induction a as [| d a IH]; simpl; [reflexivity |].
  rewrite IH. apply andb_assoc.
Qed.

Lemma url_path_whole (rest : string) :
  url_path rest = rest <-> free_of "?" rest = true /\ free_of "#" rest = true.
Proof.
  induction rest as [| c rest IH]; simpl.
  - split; auto.
  - destruct (Ascii.eqb c "?") eqn:Hq; simpl.
    + split; [discriminate | intros [H _]; discriminate].
    + destruct (Ascii.eqb c "#") eqn:Hh; simpl.
      * split; [discriminate | intros [_ H]; discriminate].
      * split.
        -- intros [= H]. apply IH. exact H.
        -- intros H. f_equal. apply IH. exact H.
Qed.

Lemma Split_not_nil (s : string) (sep : ascii) : Split s sep <> [].
Proof.
  destruct s as [| c s]; simpl; [discriminate |].
  destruct (Ascii.eqb c sep); [discriminate |].
  destruct (Split s sep); discriminate.
Qed.

(** Joining what [Split] gives restores the text. *)
Lemma Join_Split (s : string) (sep : ascii) : Join (Split s sep) sep = s.
Proof.
  induction s as [| c s IH]; simpl; [reflexivity |].
  destruct (Ascii.eqb_spec c sep) as [-> | Hc].
  - destruct (Split s sep) as [| seg segs] eqn:Hs.
    + exfalso. exact (Split_not_nil s sep Hs).
    + change (Join ("" :: seg :: segs) sep)
        with (String sep (Join (seg :: segs) sep)).
      rewrite IH. reflexivity.
  - destruct (Split s sep) as [| seg segs] eqn:Hs.
    + exfalso. exact (Split_not_nil s sep Hs).
    + rewrite <- IH. destruct segs; reflexivity.
Qed.

(** No segment that [Split] gives holds the separator. *)
Lemma Split_segments_free (s : string) (sep : ascii) :
  Forall (fun seg => free_of sep seg = true) (Split s sep).
Proof.
  induction s as [| c s IH]; simpl.
  - constructor; [reflexivity | constructor].
  - destruct (Ascii.eqb c sep) eqn:Hc.
    + constructor; [reflexivity | exact IH].
    + destruct (Split s sep) as [| seg segs]; [repeat constructor; simpl |].
      * rewrite Hc. reflexivity.
      * inversion IH as [| ? ? Hseg Hsegs]; subst.
        constructor; [simpl; rewrite Hc, Hseg; reflexivity | exact Hsegs].
Qed.

(** C8, as the code has it.  Title and body go into the URL as they are,
    without any escaping.  So the path of the URL that the Notifier builds
    splits at [/] into exactly the key, the title and the body, byte for
    byte, if and only if none of the three holds a [/], a [?] or a [#]:
    one such byte in a text of the alert and the request has other
    segments. *)
Theorem sink_url_segments_verbatim (tz : Location) (event : Event) :
  path_segments (sink_url tz event) = Some [key; title tz event; body event]
  <-> plain key = true
      /\ plain (title tz event) = true
      /\ plain (body event) = true.
Proof.
  unfold path_segments, sink_url. rewrite CutPrefix_app. simpl option_map.
  change ("/" ++ title tz event ++ "/" ++ body event)
    with (String "/" (title tz event ++ String "/" (body event))).
  set (rest := key ++ String "/" (title tz event ++ String "/" (body event))).
  assert (Hrest : forall c,
             Ascii.eqb "/" c = false ->
             free_of c rest
             = free_of c key && (free_of c (title tz event)
                                 && free_of c (body event))).
  { intros c Hc. unfold rest. rewrite free_of_app. cbn [free_of].
    rewrite free_of_app. cbn [free_of]. rewrite Hc. reflexivity. }
  unfold plain. split.
  - intros [= Hsplit].
    assert (Hwhole : url_path rest = rest).
    { rewrite <- (Join_Split (url_path rest) "/"), Hsplit. reflexivity. }
    pose proof (Split_segments_free (url_path rest) "/") as Hfree.
    rewrite Hsplit in Hfree.
    inversion Hfree as [| ? ? Hk Hfree']; subst.
    inversion Hfree' as [| ? ? Ht Hfree'']; subst.
    inversion Hfree'' as [| ? ? Hb _]; subst.
    apply url_path_whole in Hwhole. destruct Hwhole as [Hq Hh].
    rewrite (Hrest "?"%char eq_refl) in Hq.
    rewrite (Hrest "#"%char eq_refl) in Hh.
    apply andb_true_iff in Hq. destruct Hq as [Hq1 Hq].
    apply andb_true_iff in Hq. destruct Hq as [Hq2 Hq3].
    apply andb_true_iff in Hh. destruct Hh as [Hh1 Hh].
    apply andb_true_iff in Hh. destruct Hh as [Hh2 Hh3].
    rewrite Hk, Ht, Hb, Hq1, Hq2, Hq3, Hh1, Hh2, Hh3. auto.
  - intros (Hk & Ht & Hb).
    apply andb_true_iff in Hk. destruct Hk as [Hk Hk3].
    apply andb_true_iff in Hk. destruct Hk as [Hk1 Hk2].
    apply andb_true_iff in Ht. destruct Ht as [Ht Ht3].
    apply andb_true_iff in Ht. destruct Ht as [Ht1 Ht2].
    apply andb_true_iff in Hb. destruct Hb as [Hb Hb3].
    apply andb_true_iff in Hb. destruct Hb as [Hb1 Hb2].
    assert (Hwhole : url_path rest = rest).
    { apply url_path_whole.
      rewrite (Hrest "?"%char eq_refl), (Hrest "#"%char eq_refl).
      rewrite Hk2, Hk3, Ht2, Ht3, Hb2, Hb3. auto. }
    rewrite Hwhole. unfold rest.
    rewrite (Split_app "/" key _ Hk1), (Split_app "/" (title tz event) _ Ht1),
      (Split_free "/" (body event) Hb1).
    reflexivity.
Qed.

(** C9.  With an empty key [main] panics at once and starts neither
    goroutine; with a key it starts the Notifier and the Poller and does
    not panic. *)
Theorem main_requires_key :
  (key = "" ->
   main = [panic "key should have a value"] /\ existsb is_go_start main = false)
  /\ (key <> "" ->
      (exists rest, main = go_start go_notification :: go_start go_loop :: rest)
      /\ existsb is_panic main = false).
Proof.
  unfold main. split.
  - intros ->. split; reflexivity.
  - intros Hkey. destruct (String.eqb_spec key "") as [Heq | _];
      [contradiction |].
    split; [eexists; reflexivity | reflexivity].
Qed.

(** ** Further properties of the code *)

(** *** [query] *)

(** X1.  [query] returns the error of the first of its four steps that
    fails; when none fails it returns the decoded reply, behind a pointer
    that is never [nil]. *)
Theorem query_outcome (net : Net) (lastTs : int64) :
  (exists e, fetch net lastTs = Err e /\ query_failure net lastTs e)
  \/ (exists req response data resp,
         NewRequestWithContext MethodGet (query_url lastTs) = Ok req
         /\ net req = Ok response
         /\ io_ReadAll (Body response) = Ok data
         /\ json_Unmarshal data = Ok resp
         /\ fetch net lastTs = Ok (Some resp)).
Proof.
  destruct (fetch net lastTs) as [[resp |] | e] eqn:Hf.
  - right. revert Hf. unfold fetch, query, bind, lift, client_Do, ret.
    destruct (NewRequestWithContext MethodGet (query_url lastTs))
      as [req | e1] eqn:H1; simpl; [| discriminate].
    destruct (net req) as [response | e2] eqn:H2; simpl; [| discriminate].
    destruct (io_ReadAll (Body response)) as [data | e3] eqn:H3; simpl;
      [| discriminate].
    destruct (json_Unmarshal data) as [resp' | e4] eqn:H4; simpl;
      [| discriminate].
    intros [= <-]. exists req, response, data, resp'. auto.
  - exfalso. exact (fetch_Ok_not_nil _ _ Hf).
  - left. exists e. split; [reflexivity | apply fetch_Err_iff; exact Hf].
Qed.

Lemma append_cancel_l (a x y : string) : a ++ x = a ++ y -> x = y.
Proof.
  induction a as [| c a IH]; simpl; [auto |].
  intros [= H]. exact (IH H).
Qed.

Lemma length_append (x y : string) :
  String.length (x ++ y) = (String.length x + String.length y)%nat.
Proof. induction x as [| c x IH]; simpl; [reflexivity | rewrite IH; reflexivity]. Qed.

Lemma append_cancel_r (a x y : string) : x ++ a = y ++ a -> x = y.
Proof.
  revert y. induction x as [| c x IH]; intros [| d y] H; simpl in H.
  - reflexivity.
  - apply (f_equal String.length) in H. simpl in H.
    rewrite length_append in H. lia.
  - apply (f_equal String.length) in H. simpl in H.
    rewrite length_append in H. lia.
  - injection H as -> H. f_equal. exact (IH _ H).
Qed.

(** [%d] prints different integers differently. *)
Lemma fmt_d_injective (a b : Z) : fmt_d a = fmt_d b -> a = b.
Proof.
  unfold fmt_d. intros H.
  assert (Hnil : forall z, Z.to_int z <> Decimal.Pos Decimal.Nil
                           /\ Z.to_int z <> Decimal.Neg Decimal.Nil).
  { intros [| q | q]; simpl; split; try discriminate;
      intros [= Hq]; exact (DecimalPos.Unsigned.to_uint_nonnil q Hq). }
  apply (f_equal NilZero.int_of_string) in H.
  rewrite !NilZero.isi in H by apply Hnil.
  injection H as H. apply (f_equal Z.of_int) in H.
  rewrite !DecimalZ.of_to in H. exact H.
Qed.

(** X2.  The URL of a request to the feed determines the cursor it was
    made with: different cursors give different URLs. *)
Theorem query_url_injective (a b : int64) : a <> b -> query_url a <> query_url b.
Proof.
  unfold query_url. intros Hab H. apply Hab.
  apply append_cancel_l in H. apply append_cancel_r in H.
  exact (fmt_d_injective a b H).
Qed.

(** The requests of [query]: one, to the URL of the cursor, unless the URL
    is refused. *)
Lemma query_requests {T : Type} (Unmarshal : string -> result T)
      (net : Net) (lastTs : int64) (tr : Trace) :
  requests (snd (query Unmarshal net lastTs tr))
  = (requests tr
     ++ match url_Parse (query_url lastTs) with
        | Ok _ => [{| Method := MethodGet; URL := query_url lastTs |}]
        | Err _ => []
        end)%list.
Proof.
  unfold query, bind, lift, client_Do, ret, NewRequestWithContext.
  destruct (url_Parse (query_url lastTs)) as [u | e]; simpl;
    [| rewrite app_nil_r; reflexivity].
  destruct (net _) as [response | e]; simpl;
    [| rewrite requests_app; reflexivity].
  destruct (io_ReadAll (Body response)) as [data | e]; simpl;
    [| rewrite requests_app; reflexivity].
  destruct (Unmarshal data); simpl; rewrite requests_app; reflexivity.
Qed.

(** *** [loop] *)

(** The body of the tick adds no request of its own. *)
Lemma loop_tick_requests net now l tr :
  requests (snd (loop_tick net now l tr))
  = requests (snd (query json_Unmarshal net l tr)).
Proof.
  unfold loop_tick.
  destruct (query json_Unmarshal net l tr) as [[[r |] | e] tr']; simpl.
  - destruct (Data r) as [| ev0 rest]; [reflexivity |].
    cbv zeta.
    destruct (time.Since now (time.UnixMilli (StartAt ev0)) <=? _);
      cbn [snd]; rewrite !requests_app; cbn [requests found_the_events out_of_date];
      rewrite !app_nil_r; reflexivity.
  - reflexivity.
  - rewrite requests_app. simpl. apply app_nil_r.
Qed.

(** X3.  Every tick makes one request to the feed, a GET whose [start_at]
    is the cursor as it is at that tick; it makes none when the URL is
    refused. *)
Theorem loop_tick_asks_with_cursor
        (cases : list PollerCase) (net : Net) (now : time.Time) :
  p_exited (loop cases) = false ->
  requests (p_trace (loop (cases ++ [ticker_C net now])))
  = (requests (p_trace (loop cases))
     ++ match url_Parse (query_url (p_lastTs (loop cases))) with
        | Ok _ => [{| Method := "GET";
                      URL := "https://mobile-new.chinaeew.cn/v1/earlywarnings?start_at="
                               ++ fmt_d (p_lastTs (loop cases)) ++ "&updates=4" |}]
        | Err _ => []
        end)%list.
Proof.
  intros Hrun. rewrite loop_snoc_tick by exact Hrun. simpl.
  rewrite loop_tick_requests. apply query_requests.
Qed.

Lemma loop_snoc_done (cases : list PollerCase) :
  p_exited (loop cases) = false ->
  loop (cases ++ [loop_ctx_Done])
  = {| p_lastTs := p_lastTs (loop cases);
       p_trace := (p_trace (loop cases) ++ [slog_Info "loop exiting" []])%list;
       p_exited := true |}.
Proof.
  intros H. unfold loop in *. rewrite loop_from_app by exact H. reflexivity.
Qed.


(** What a tick does to the cursor and to the events sent, in a run. *)
Lemma run_step (cases : list PollerCase) (net : Net) (now : time.Time) :
  p_exited (loop cases) = false ->
  let before := loop cases in
  let after := loop (cases ++ [ticker_C net now]) in
  (p_lastTs after = p_lastTs before
   /\ sends (p_trace after) = sends (p_trace before))
  \/ exists r ev rest,
      fetch net (p_lastTs before) = Ok (Some r)
      /\ Data r = ev :: rest
      /\ p_lastTs after = StartAt ev
      /\ ((now - time.UnixMilli (StartAt ev) <= 30 * time.Minute
           /\ sends (p_trace after) = (sends (p_trace before) ++ [ev])%list)
          \/ (30 * time.Minute < now - time.UnixMilli (StartAt ev)
              /\ sends (p_trace after) = sends (p_trace before))).
Proof.
  intros Hrun before after. unfold before, after.
  rewrite loop_snoc_tick by exact Hrun. simpl.
  destruct (fetch net (p_lastTs (loop cases))) as [[r |] | e] eqn:Hf.
  - destruct (Data r) as [| ev rest] eqn:Hd.
    + left. destruct (loop_tick_empty net now (p_lastTs (loop cases))
                                      (p_trace (loop cases)) r Hf Hd)
        as (reqs & ->).
      simpl. split; [reflexivity |]. count_sends. reflexivity.
    + right. exists r, ev, rest. split; [reflexivity |]. split; [exact Hd |].
      destruct (Z_le_gt_dec (now - time.UnixMilli (StartAt ev))
                            (30 * time.Minute)) as [Hage | Hage].
      * destruct (loop_tick_fresh net now (p_lastTs (loop cases))
                                  (p_trace (loop cases)) r ev rest Hf Hd Hage)
          as (reqs & ->).
        simpl. split; [reflexivity |]. left. split; [exact Hage |].
        count_sends. reflexivity.
      * assert (Hstale : 30 * time.Minute < now - time.UnixMilli (StartAt ev))
          by lia.
        destruct (loop_tick_stale net now (p_lastTs (loop cases))
                                  (p_trace (loop cases)) r ev rest Hf Hd Hstale)
          as (reqs & ->).
        simpl. split; [reflexivity |]. right. split; [exact Hstale |].
        count_sends. reflexivity.
  - exfalso. exact (fetch_Ok_not_nil _ _ Hf).
  - left. destruct (loop_tick_error net now (p_lastTs (loop cases))
                                    (p_trace (loop cases)) e Hf)
      as (reqs & ->).
    simpl. split; [reflexivity |]. count_sends. reflexivity.
Qed.

Lemma loop_snoc_exited (cases : list PollerCase) (c : PollerCase) :
  p_exited (loop cases) = true -> loop (cases ++ [c]) = loop cases.
Proof. intros H. unfold loop in *. apply loop_from_exited. exact H. Qed.

(** Splits a run at its last case: [loop] had returned before it, or the
    case is a tick, or it is [ctx.Done]. *)
Ltac last_case cases c Hrun :=
  destruct (p_exited (loop cases)) eqn:Hrun;
  [ rewrite (loop_snoc_exited cases c Hrun) in *
  | destruct c as [net now |] ].

(** X5.  Every event that [loop] ever sends was, at one of the ticks of the
    run, the first event of the reply of the feed and at most thirty
    minutes old by the clock of that tick. *)
Theorem sent_events_are_fresh_heads (cases : list PollerCase) (ev : Event) :
  In ev (sends (p_trace (loop cases))) ->
  exists net now lastTs r rest,
    In (ticker_C net now) cases
    /\ fetch net lastTs = Ok (Some r)
    /\ Data r = ev :: rest
    /\ now - time.UnixMilli (StartAt ev) <= 30 * time.Minute.
Proof.
  induction cases as [| c cases IH] using rev_ind; intros Hin.
  - contradiction.
  - assert (Hold : In ev (sends (p_trace (loop cases))) ->
                   exists net now lastTs r rest,
                     In (ticker_C net now) (cases ++ [c])
                     /\ fetch net lastTs = Ok (Some r)
                     /\ Data r = ev :: rest
                     /\ now - time.UnixMilli (StartAt ev) <= 30 * time.Minute).
    { intros H. destruct (IH H) as (net & now & l & r & rest & Hc & Hrest).
      exists net, now, l, r, rest. split; [| exact Hrest].
      apply in_or_app. left. exact Hc. }
    last_case cases c Hrun.
    + apply Hold. exact Hin.
    + destruct (run_step cases net now Hrun)
        as [(_ & Hs) | (r & ev' & rest & Hf & Hd & _ & [(Hage & Hs) | (_ & Hs)])];
        rewrite Hs in Hin; try (apply Hold; exact Hin).
      apply in_app_or in Hin. destruct Hin as [Hin | [<- | []]].
      * apply Hold. exact Hin.
      * exists net, now, (p_lastTs (loop cases)), r, rest.
        split; [apply in_or_app; right; left; reflexivity | auto].
    + rewrite loop_snoc_done in Hin by exact Hrun. simpl in Hin.
      rewrite sends_app in Hin. simpl in Hin. rewrite app_nil_r in Hin.
      apply Hold. exact Hin.
Qed.

Lemma ticks_app (cases1 cases2 : list PollerCase) :
  ticks (cases1 ++ cases2) = (ticks cases1 + ticks cases2)%nat.
Proof.
  induction cases1 as [| [net now |] cases1 IH]; simpl; [reflexivity | |];
    rewrite IH; reflexivity.
Qed.

(** X6.  [loop] sends at most one event for each tick, and makes at most
    one request to the feed for each tick. *)
Theorem at_most_one_send_per_tick (cases : list PollerCase) :
  (List.length (sends (p_trace (loop cases))) <= ticks cases)%nat
  /\ (List.length (requests (p_trace (loop cases))) <= ticks cases)%nat.
Proof.
  induction cases as [| c cases [IHs IHr]] using rev_ind.
  - simpl. split; lia.
  - rewrite ticks_app. last_case cases c Hrun.
    + split; lia.
    + split.
      * destruct (run_step cases net now Hrun)
          as [(_ & Hs) | (r & ev & rest & _ & _ & _ & [(_ & Hs) | (_ & Hs)])];
          rewrite Hs; rewrite ?length_app; simpl; lia.
      * rewrite loop_snoc_tick by exact Hrun. simpl.
        rewrite loop_tick_requests, query_requests, length_app.
        destruct (url_Parse (query_url (p_lastTs (loop cases)))); simpl; lia.
    + rewrite loop_snoc_done by exact Hrun. simpl.
      rewrite sends_app, requests_app, !length_app. simpl. split; lia.
Qed.

(** X7.  The cursor is never anything but zero or the [startAt] of the
    first event of a reply received at one of the ticks of the run. *)
Theorem cursor_comes_from_feed (cases : list PollerCase) :
  p_lastTs (loop cases) = 0
  \/ exists net now lastTs r ev rest,
      In (ticker_C net now) cases
      /\ fetch net lastTs = Ok (Some r)
      /\ Data r = ev :: rest
      /\ p_lastTs (loop cases) = StartAt ev.
Proof.
  induction cases as [| c cases IH] using rev_ind.
  - left. reflexivity.
  - destruct (cursor_step cases c)
      as [-> | (net & now & r & ev & rest & -> & Hf & Hd & ->)].
    + destruct IH as [IH | (net & now & l & r & ev & rest & Hc & Hrest)];
        [left; exact IH | right].
      exists net, now, l, r, ev, rest. split; [| exact Hrest].
      apply in_or_app. left. exact Hc.
    + right. exists net, now, (p_lastTs (loop cases)), r, ev, rest.
      split; [apply in_or_app; right; left; reflexivity | auto].
Qed.

(** *** [notification] *)


(** The requests that the dispatch of one event adds. *)
Lemma notification_recv_requests (net : Net) (event : Event) (tr : Trace) :
  requests (notification_recv net event tr)
  = (requests tr
     ++ match LoadLocation "Asia/Shanghai" with
        | Ok tz =>
            match url_Parse (sink_url tz event) with
            | Ok _ => [{| Method := MethodGet; URL := sink_url tz event |}]
            | Err _ => []
            end
        | Err _ => []
        end)%list.
Proof.
  unfold notification_recv, fn, bind, lift, client_Do, emit, ret,
    NewRequestWithContext.
  destruct (LoadLocation "Asia/Shanghai") as [tz | e]; simpl;
    [| rewrite requests_app; reflexivity].
  destruct (url_Parse (sink_url tz event)) as [u | e]; simpl;
    [| rewrite requests_app; reflexivity].
  destruct (net _) as [response | e]; simpl.
  - destruct (io_ReadAll (Body response)) as [data | e]; simpl;
      rewrite !requests_app; simpl; rewrite ?app_nil_r; reflexivity.
  - rewrite !requests_app. simpl. rewrite app_nil_r. reflexivity.
Qed.

Lemma deliveries_requests (tz : Location) (inputs : list (Event * Net)) :
  LoadLocation "Asia/Shanghai" = Ok tz ->
  (forall input, In input inputs ->
                 url_Parse (sink_url tz (fst input)) = Ok tt) ->
  forall tr,
    requests (n_trace (notification_from (deliveries inputs) tr))
    = (requests tr
       ++ map (fun input => {| Method := MethodGet;
                               URL := sink_url tz (fst input) |}) inputs)%list.
Proof.
  intros Htz. induction inputs as [| input inputs IH]; intros Hurl tr; simpl.
  - symmetry. apply app_nil_r.
  - rewrite IH by (intros i Hi; apply Hurl; right; exact Hi).
    rewrite notification_recv_requests, Htz, (Hurl input (or_introl eq_refl)).
    rewrite <- app_assoc. reflexivity.
Qed.

(** X9.  On a system that finds the zone, the Notifier makes exactly one
    request for every event it receives, in the order in which the events
    arrive, whatever became of the requests before (the URLs being ones
    that parse). *)
Theorem notification_requests_in_order
        (tz : Location) (inputs : list (Event * Net)) :
  LoadLocation "Asia/Shanghai" = Ok tz ->
  (forall input, In input inputs ->
                 url_Parse (sink_url tz (fst input)) = Ok tt) ->
  requests (n_trace (notification (deliveries inputs)))
  = map (fun input => {| Method := "GET";
                         URL := "https://api.day.app/" ++ key
                                  ++ "/" ++ title tz (fst input)
                                  ++ "/" ++ body (fst input) |}) inputs.
Proof.
  intros Htz Hurl. unfold notification.
  rewrite (deliveries_requests tz inputs Htz Hurl []). reflexivity.
Qed.

Lemma log_lines_app (tr1 tr2 : Trace) :
  log_lines (tr1 ++ tr2)%list = (log_lines tr1 + log_lines tr2)%nat.
Proof.
  induction tr1 as [| e tr1 IH]; simpl; [reflexivity |].
  destruct e; simpl; rewrite IH; reflexivity.
Qed.

Lemma notification_recv_log_lines (net : Net) (event : Event) (tr : Trace) :
  log_lines (notification_recv net event tr) = S (log_lines tr).
Proof.
  unfold notification_recv, fn, bind, lift, client_Do, emit, ret.
  destruct (LoadLocation "Asia/Shanghai") as [tz | e]; simpl;
    [| rewrite log_lines_app; simpl; lia].
  destruct (NewRequestWithContext MethodGet (sink_url tz event)) as [req | e];
    simpl; [| rewrite log_lines_app; simpl; lia].
  destruct (net req) as [response | e]; simpl.
  - destruct (io_ReadAll (Body response)) as [data | e]; simpl;
      rewrite !log_lines_app; simpl; lia.
  - rewrite !log_lines_app. simpl. lia.
Qed.

(** X10.  The Notifier writes exactly one log line for every event it
    receives, the result of the push service or the error: no event passes
    without a trace in the log, whatever the system and the network do. *)
Theorem notification_logs_every_event (inputs : list (Event * Net)) :
  log_lines (n_trace (notification (deliveries inputs))) = List.length inputs.
Proof.
  unfold notification.
  assert (H : forall tr,
             log_lines (n_trace (notification_from (deliveries inputs) tr))
             = (log_lines tr + List.length inputs)%nat).
  { induction inputs as [| input inputs IH]; intros tr; simpl.
    - lia.
    - rewrite IH, notification_recv_log_lines. lia. }
  rewrite H. reflexivity.
Qed.

(** X13.  [fn] returns the error of the first of its four steps that
    fails; when none fails it has made one request and has logged the body
    of the reply of the push service as it came. *)
Theorem dispatch_outcome (net : Net) (event : Event) (tr : Trace) :
  (exists e, fn net event tr = (Err e, snd (fn net event tr))
             /\ dispatch_failure net event e)
  \/ (exists tz req response data,
         LoadLocation "Asia/Shanghai" = Ok tz
         /\ NewRequestWithContext MethodGet (sink_url tz event) = Ok req
         /\ net req = Ok response
         /\ io_ReadAll (Body response) = Ok data
         /\ fn net event tr
            = (Ok tt,
               (tr ++ [http_Do req;
                       slog_Info "notification successfully"
                                 [attr_string "result" data]])%list)).
Proof.
  destruct (dispatch net event) as [[] | e] eqn:Hd.
  - right. rewrite fn_trace, Hd. revert Hd.
    unfold dispatch, fn, bind, lift, client_Do, emit, ret.
    destruct (LoadLocation "Asia/Shanghai") as [tz | e1] eqn:H1; simpl;
      [| discriminate].
    destruct (NewRequestWithContext MethodGet (sink_url tz event))
      as [req | e2] eqn:H2; simpl; [| discriminate].
    destruct (net req) as [response | e3] eqn:H3; simpl; [| discriminate].
    destruct (io_ReadAll (Body response)) as [data | e4] eqn:H4; simpl;
      [| discriminate].
    intros _. exists tz, req, response, data.
    repeat split; assumption || reflexivity.
  - left. exists e. split.
    + rewrite fn_trace, Hd. reflexivity.
    + apply dispatch_Err_iff. exact Hd.
Qed.

(** *** The earlier revision of [loop] *)

Lemma subsequence_snoc_keep {A : Type} (x : A) (l1 l2 : list A) :
  subsequence l1 l2 -> subsequence (l1 ++ [x]) (l2 ++ [x]).
Proof.
  induction 1; simpl; constructor; try assumption.
  constructor.
Qed.

Lemma subsequence_snoc_drop {A : Type} (x : A) (l1 l2 : list A) :
  subsequence l1 l2 -> subsequence l1 (l2 ++ [x]).
Proof.
  induction 1; simpl; constructor; try assumption.
  constructor.
Qed.

(** One tick of the two revisions from the same cursor. *)
Lemma ticks_agree net now l tr tr' :
  subsequence (sends tr) (sends tr') ->
  fst (loop_tick net now l tr) = fst (legacy_loop_tick net l tr')
  /\ subsequence (sends (snd (loop_tick net now l tr)))
                 (sends (snd (legacy_loop_tick net l tr'))).
Proof.
  intros Hsub. unfold loop_tick, legacy_loop_tick.
  destruct (query_trace net l tr) as (reqs & -> & _).
  destruct (query_trace net l tr') as (reqs' & -> & _).
  destruct (fetch net l) as [[r |] | e].
  - destruct (Data r) as [| ev0 rest].
    + simpl. split; [reflexivity |]. count_sends. exact Hsub.
    + cbv zeta.
      destruct (time.Since now (time.UnixMilli (StartAt ev0)) <=? _);
        simpl; (split; [reflexivity |]); count_sends.
      * apply subsequence_snoc_keep. exact Hsub.
      * apply subsequence_snoc_drop. exact Hsub.
  - simpl. split; [reflexivity |]. count_sends. exact Hsub.
  - simpl. split; [reflexivity |]. count_sends. exact Hsub.
Qed.

Lemma loops_agree (cases : list PollerCase) :
  forall l tr tr',
    subsequence (sends tr) (sends tr') ->
    p_lastTs (loop_from cases l tr) = p_lastTs (legacy_loop_from cases l tr')
    /\ p_exited (loop_from cases l tr) = p_exited (legacy_loop_from cases l tr')
    /\ subsequence (sends (p_trace (loop_from cases l tr)))
                   (sends (p_trace (legacy_loop_from cases l tr'))).
Proof.
  induction cases as [| [net now |] cases IH]; intros l tr tr' Hsub; simpl.
  - auto.
  - destruct (ticks_agree net now l tr tr' Hsub) as (Hl & Hs).
    destruct (loop_tick net now l tr) as [l1 tr1].
    destruct (legacy_loop_tick net l tr') as [l2 tr2].
    simpl in Hl, Hs. subst l2. apply IH. exact Hs.
  - repeat split. count_sends. exact Hsub.
Qed.

(** X11.  The staleness test is all that separates [loop] from its earlier
    revision as far as the cursor and the channel go: on the same ticks and
    replies the two have the same cursor and return at the same moment,
    and the events sent are those of the earlier revision with some left
    out. *)
Theorem staleness_test_only_drops (cases : list PollerCase) :
  p_lastTs (loop cases) = p_lastTs (legacy_loop cases)
  /\ p_exited (loop cases) = p_exited (legacy_loop cases)
  /\ subsequence (sends (p_trace (loop cases)))
                 (sends (p_trace (legacy_loop cases))).
Proof. apply loops_agree. simpl. constructor. Qed.

Lemma legacy_loop_from_app (cases1 cases2 : list PollerCase) (l : int64) (tr : Trace) :
  p_exited (legacy_loop_from cases1 l tr) = false ->
  legacy_loop_from (cases1 ++ cases2) l tr
  = legacy_loop_from cases2 (p_lastTs (legacy_loop_from cases1 l tr))
                     (p_trace (legacy_loop_from cases1 l tr)).
Proof.
  revert l tr. induction cases1 as [| c cases1 IH]; intros l tr H; simpl in *.
  - reflexivity.
  - destruct c as [net now |].
    + destruct (legacy_loop_tick net l tr) as [l' tr']. apply IH. exact H.
    + discriminate.
Qed.

(** X12.  The earlier revision of [loop] has no staleness test: at every
    tick whose fetch succeeds with a reply that is not empty it sends the
    first event of the reply and moves the cursor to its [startAt], however
    old the event is. *)
Theorem legacy_loop_sends_every_head
        (cases : list PollerCase) (net : Net) (now : time.Time)
        (r : Response) (ev : Event) (rest : list Event) :
  p_exited (legacy_loop cases) = false ->
  fetch net (p_lastTs (legacy_loop cases)) = Ok (Some r) ->
  Data r = ev :: rest ->
  sends (p_trace (legacy_loop (cases ++ [ticker_C net now])))
  = (sends (p_trace (legacy_loop cases)) ++ [ev])%list
  /\ p_lastTs (legacy_loop (cases ++ [ticker_C net now])) = StartAt ev.
Proof.
  intros Hrun Hf Hd. unfold legacy_loop in *.
  rewrite legacy_loop_from_app by exact Hrun. simpl.
  unfold legacy_loop_tick.
  destruct (query_trace net (p_lastTs (legacy_loop_from cases 0 []))
                        (p_trace (legacy_loop_from cases 0 [])))
    as (reqs & -> & _).
  rewrite Hf, Hd. simpl. split; [| reflexivity].
  count_sends. reflexivity.
Qed.

End Program.

(** ** The properties at work

    Runs of the program on a system with the reference behaviour of the
    library, against the servers of [Example]. *)

Example reference_message :
  sink_url "KEY" Reference.Location Reference.Format Reference.fmt_f
           Example.shanghai (Example.quake "Sichuan" Example.t0_ms)
  = "https://api.day.app/KEY/2023-11-15 06:13:20 有5.5级地震发生了/地点:Sichuan,东经:103.250000°,北纬:30.500000°,地震深度:10.0公里".
Proof. vm_compute. reflexivity. Qed.

Lemma loop_emits_fresh_first_event_witness :
  let lp := loop Reference.url_Parse (Example.decode Example.bodies) in
  let tick := ticker_C (Example.answers "one event") Example.ten_minutes_later in
  let ev := Example.quake "Sichuan" Example.t0_ms in
  (p_exited (lp []) = false
   /\ Example.ten_minutes_later - time.UnixMilli (StartAt ev) <= 30 * time.Minute)
  /\ sends (p_trace (lp [tick])) = [ev]
  /\ p_lastTs (lp [tick]) = Example.t0_ms.
Proof.
  split; [split; [reflexivity | vm_compute; discriminate] |].
  apply (loop_emits_fresh_first_event
           Reference.url_Parse (Example.decode Example.bodies) []
           (Example.answers "one event") Example.ten_minutes_later
           (Example.feed_reply [Example.quake "Sichuan" Example.t0_ms])
           (Example.quake "Sichuan" Example.t0_ms) []);
    [reflexivity | reflexivity | reflexivity | vm_compute; discriminate].
Defined.

Lemma loop_drops_stale_first_event_witness :
  let lp := loop Reference.url_Parse (Example.decode Example.bodies) in
  let tick := ticker_C (Example.answers "one event") Example.forty_minutes_later in
  let ev := Example.quake "Sichuan" Example.t0_ms in
  30 * time.Minute < Example.forty_minutes_later - time.UnixMilli (StartAt ev)
  /\ sends (p_trace (lp [tick])) = []
  /\ p_lastTs (lp [tick]) = Example.t0_ms.
Proof.
  split; [reflexivity |].
  apply (loop_drops_stale_first_event
           Reference.url_Parse (Example.decode Example.bodies) []
           (Example.answers "one event") Example.forty_minutes_later
           (Example.feed_reply [Example.quake "Sichuan" Example.t0_ms])
           (Example.quake "Sichuan" Example.t0_ms) []);
    reflexivity.
Defined.

Lemma loop_skips_empty_reply_witness :
  let lp := loop Reference.url_Parse (Example.decode Example.bodies) in
  let tick := ticker_C (Example.answers "no events") Example.ten_minutes_later in
  fetch Reference.url_Parse (Example.decode Example.bodies)
        (Example.answers "no events") 0 = Ok (Some (Example.feed_reply []))
  /\ sends (p_trace (lp [tick])) = []
  /\ p_lastTs (lp [tick]) = 0.
Proof.
  split; [reflexivity |].
  apply (loop_skips_empty_reply
           Reference.url_Parse (Example.decode Example.bodies) []
           (Example.answers "no events") Example.ten_minutes_later
           (Example.feed_reply []));
    reflexivity.
Defined.

Lemma loop_survives_query_failure_witness :
  let lp := loop Reference.url_Parse (Example.decode Example.bodies) in
  let tick := ticker_C Example.unreachable Example.ten_minutes_later in
  query_failure Reference.url_Parse (Example.decode Example.bodies)
                Example.unreachable 0 ErrDo
  /\ p_lastTs (lp [tick]) = 0
  /\ sends (p_trace (lp [tick])) = []
  /\ last (p_trace (lp [tick])) cancel
     = slog_Error "query data" [attr_err "err" ErrDo]
  /\ p_exited (lp [tick]) = false.
Proof.
  assert (Hfail : query_failure Reference.url_Parse (Example.decode Example.bodies)
                                Example.unreachable 0 ErrDo)
    by (eapply feed_transport_fails; reflexivity).
  split; [exact Hfail |].
  pose proof (loop_survives_query_failure
                Reference.url_Parse (Example.decode Example.bodies) []
                Example.unreachable Example.ten_minutes_later ErrDo
                eq_refl Hfail) as (H1 & H2 & H3 & H4 & _).
  exact (conj H1 (conj H2 (conj H3 H4))).
Defined.



Lemma message_contents_witness :
  let ev := Example.quake "Sichuan" Example.t0_ms in
  let title := title Reference.Location Reference.Format Reference.fmt_f Example.shanghai ev in
  let body := body Reference.fmt_f ev in
  Reference.LoadLocation "Asia/Shanghai" = Ok Example.shanghai
  /\ Contains title "2023-11-15 06:13:20" = true
  /\ Contains title "5.5" = true
  /\ Contains body "Sichuan" = true
  /\ Contains body "103.250000" = true
  /\ Contains body "30.500000" = true
  /\ Contains body "10.0" = true.
Proof.
  split; [reflexivity |].
  exact (proj1 (message_contents
                  "KEY" Reference.Location Reference.LoadLocation
                  Reference.Format Reference.fmt_f Reference.url_Parse
                  (Example.quake "Sichuan" Example.t0_ms) Example.shanghai eq_refl)).
Defined.

Lemma notification_survives_dispatch_failure_witness :
  let run := notification "KEY" Reference.Location Reference.LoadLocation
                          Reference.Format Reference.fmt_f Reference.url_Parse in
  let ev := Example.quake "Sichuan" Example.t0_ms in
  let ev' := Example.quake "Yunnan" (Example.t0_ms + 1000) in
  dispatch_failure "KEY" Reference.Location Reference.LoadLocation
                   Reference.Format Reference.fmt_f Reference.url_Parse
                   Example.unreachable ev ErrDo
  /\ n_exited (run [ch_recv ev Example.unreachable]) = false
  /\ run [ch_recv ev Example.unreachable; ch_recv ev' (Example.answers "success")]
     = {| n_trace :=
            notification_recv "KEY" Reference.Location Reference.LoadLocation
                              Reference.Format Reference.fmt_f Reference.url_Parse
                              (Example.answers "success") ev'
                              (n_trace (run [ch_recv ev Example.unreachable]));
          n_exited := false |}.
Proof.
  assert (Hfail : dispatch_failure
                    "KEY" Reference.Location Reference.LoadLocation
                    Reference.Format Reference.fmt_f Reference.url_Parse
                    Example.unreachable (Example.quake "Sichuan" Example.t0_ms)
                    ErrDo)
    by (eapply sink_transport_fails; reflexivity).
  split; [exact Hfail |].
  pose proof (notification_survives_dispatch_failure
                "KEY" Reference.Location Reference.LoadLocation
                Reference.Format Reference.fmt_f Reference.url_Parse
                [] Example.unreachable (Example.quake "Sichuan" Example.t0_ms)
                ErrDo eq_refl Hfail) as (_ & H2 & H3).
  split; [exact H2 | exact (H3 _ _)].
Defined.

(** The failure is logged, the next event goes out. *)
Example failed_then_delivered :
  let run := notification "KEY" Reference.Location Reference.LoadLocation
                          Reference.Format Reference.fmt_f Reference.url_Parse in
  let ev := Example.quake "Sichuan" Example.t0_ms in
  let ev' := Example.quake "Yunnan" (Example.t0_ms + 1000) in
  let url event := sink_url "KEY" Reference.Location Reference.Format
                            Reference.fmt_f Example.shanghai event in
  n_trace (run [ch_recv ev Example.unreachable;
                ch_recv ev' (Example.answers "success")])
  = [ http_Do {| Method := "GET"; URL := url ev |};
      slog_Error "send notification failed" [attr_err "err" ErrDo];
      http_Do {| Method := "GET"; URL := url ev' |};
      slog_Info "notification successfully" [attr_string "result" "success"] ].
Proof. vm_compute. reflexivity. Qed.

(** Without a zone database every dispatch fails before a request is
    made. *)
Example no_tzdata_no_request :
  n_trace (notification "KEY" Reference.Location Reference.LoadLocation_no_tzdata
                        Reference.Format Reference.fmt_f Reference.url_Parse
                        [ch_recv (Example.quake "Sichuan" Example.t0_ms)
                                 (Example.answers "success")])
  = [slog_Error "send notification failed" [attr_err "err" ErrLoadLocation]].
Proof. vm_compute. reflexivity. Qed.

(** C8 as it is stated fails: nothing escapes the [/] of an epicenter, so
    the path has four segments and the third is not the body. *)
Lemma sink_url_not_encoded :
  ~ sink_url_encodes "KEY" Reference.Location Reference.Format Reference.fmt_f
                     Example.shanghai (Example.quake "A/B" Example.t0_ms).
Proof.
  intros (t & b & Hsegments & _). vm_compute in Hsegments. discriminate.
Qed.

(** Nor is the title of any alert a path segment as it stands: it holds a
    space and bytes that are not ASCII. *)
Example title_not_path_safe :
  path_safe (title Reference.Location Reference.Format Reference.fmt_f Example.shanghai
                   (Example.quake "Sichuan" Example.t0_ms)) = false.
Proof. vm_compute. reflexivity. Qed.

(** A [?] in the name of the epicenter ends the path in the middle of the
    body. *)
Example question_mark_ends_path :
  path_segments (sink_url "KEY" Reference.Location Reference.Format
                          Reference.fmt_f Example.shanghai
                          (Example.quake "A?B" Example.t0_ms))
  = Some ["KEY"; "2023-11-15 06:13:20 有5.5级地震发生了"; "地点:A"].
Proof. vm_compute. reflexivity. Qed.

Lemma sink_url_segments_verbatim_witness :
  let ev := Example.quake "Sichuan" Example.t0_ms in
  (plain "KEY" = true
   /\ plain (title Reference.Location Reference.Format Reference.fmt_f
                   Example.shanghai ev) = true
   /\ plain (body Reference.fmt_f ev) = true)
  /\ path_segments (sink_url "KEY" Reference.Location Reference.Format
                            Reference.fmt_f Example.shanghai ev)
     = Some ["KEY"; "2023-11-15 06:13:20 有5.5级地震发生了";
             "地点:Sichuan,东经:103.250000°,北纬:30.500000°,地震深度:10.0公里"].
Proof.
  assert (Hplain :
            plain "KEY" = true
            /\ plain (title Reference.Location Reference.Format Reference.fmt_f
                            Example.shanghai
                            (Example.quake "Sichuan" Example.t0_ms)) = true
            /\ plain (body Reference.fmt_f
                           (Example.quake "Sichuan" Example.t0_ms)) = true)
    by (repeat split; vm_compute; reflexivity).
  split; [exact Hplain |].
  exact (proj2 (sink_url_segments_verbatim
                  "KEY" Reference.Location Reference.Format Reference.fmt_f
                  Example.shanghai (Example.quake "Sichuan" Example.t0_ms))
               Hplain).
Defined.

Lemma main_requires_key_witness :
  (main "" = [panic "key should have a value"]
   /\ existsb is_go_start (main "") = false)
  /\ ((exists rest,
         main "KEY" = go_start go_notification :: go_start go_loop :: rest)
      /\ existsb is_panic (main "KEY") = false).
Proof.
  split.
  - exact (proj1 (main_requires_key "") eq_refl).
  - apply (proj2 (main_requires_key "KEY")). discriminate.
Defined.

Lemma loop_emits_again_at_cursor_witness :
  let lp := loop Reference.url_Parse (Example.decode Example.bodies) in
  let tick := ticker_C (Example.answers "one event") Example.ten_minutes_later in
  let ev := Example.quake "Sichuan" Example.t0_ms in
  (StartAt ev = p_lastTs (lp [tick])
   /\ sends (p_trace (lp ([tick] ++ [tick])%list))
      = (sends (p_trace (lp [tick])) ++ [ev])%list)
  /\ sends (p_trace (lp [tick; tick])) = [ev; ev].
Proof.
  split; [split; [reflexivity |] |].
  - apply (proj1 (loop_emits_again_at_cursor
                    Reference.url_Parse (Example.decode Example.bodies)
                    [ticker_C (Example.answers "one event")
                              Example.ten_minutes_later]
                    (Example.quake "Sichuan" Example.t0_ms) eq_refl)
                 (Example.answers "one event") Example.ten_minutes_later
                 (Example.feed_reply [Example.quake "Sichuan" Example.t0_ms]) []);
      [reflexivity | reflexivity | reflexivity | vm_compute; discriminate].
  - apply (proj2 (loop_emits_again_at_cursor
                    Reference.url_Parse (Example.decode Example.bodies) []
                    (Example.quake "Sichuan" Example.t0_ms) eq_refl)
                 (Example.answers "one event") Example.ten_minutes_later
                 (Example.feed_reply [Example.quake "Sichuan" Example.t0_ms]) []
                 (Example.answers "one event") Example.ten_minutes_later
                 (Example.feed_reply [Example.quake "Sichuan" Example.t0_ms]) []);
      [reflexivity | reflexivity | vm_compute; discriminate
       | reflexivity | reflexivity | vm_compute; discriminate].
Defined.

Lemma loop_tick_asks_with_cursor_witness :
  let lp := loop Reference.url_Parse (Example.decode Example.bodies) in
  let tick := ticker_C (Example.answers "one event") Example.ten_minutes_later in
  p_exited (lp [tick]) = false
  /\ requests (p_trace (lp [tick; tick]))
     = [ {| Method := "GET";
            URL := "https://mobile-new.chinaeew.cn/v1/earlywarnings?start_at=0&updates=4" |};
         {| Method := "GET";
            URL := "https://mobile-new.chinaeew.cn/v1/earlywarnings?start_at=1700000000000&updates=4" |} ].
Proof.
  split; [reflexivity |].
  exact (loop_tick_asks_with_cursor
           Reference.url_Parse (Example.decode Example.bodies)
           [ticker_C (Example.answers "one event") Example.ten_minutes_later]
           (Example.answers "one event") Example.ten_minutes_later eq_refl).
Defined.


Lemma sent_events_are_fresh_heads_witness :
  let tick := ticker_C (Example.answers "two events") Example.ten_minutes_later in
  let ev := Example.quake "Sichuan" Example.t0_ms in
  In ev (sends (p_trace (loop Reference.url_Parse (Example.decode Example.bodies)
                              [tick])))
  /\ exists net now lastTs r rest,
      In (ticker_C net now) [tick]
      /\ fetch Reference.url_Parse (Example.decode Example.bodies) net lastTs
         = Ok (Some r)
      /\ Data r = ev :: rest
      /\ now - time.UnixMilli (StartAt ev) <= 30 * time.Minute.
Proof.
  assert (Hin : In (Example.quake "Sichuan" Example.t0_ms)
                   (sends (p_trace (loop Reference.url_Parse
                                         (Example.decode Example.bodies)
                                         [ticker_C (Example.answers "two events")
                                                   Example.ten_minutes_later]))))
    by (left; reflexivity).
  split; [exact Hin |].
  exact (sent_events_are_fresh_heads
           Reference.url_Parse (Example.decode Example.bodies) _ _ Hin).
Defined.


Lemma notification_requests_in_order_witness :
  let ev := Example.quake "Sichuan" Example.t0_ms in
  let ev' := Example.quake "Yunnan" (Example.t0_ms + 1000) in
  let inputs := [(ev, Example.unreachable); (ev', Example.answers "success")] in
  Reference.LoadLocation "Asia/Shanghai" = Ok Example.shanghai
  /\ map URL
         (requests
            (n_trace
               (notification "KEY" Reference.Location Reference.LoadLocation
                             Reference.Format Reference.fmt_f Reference.url_Parse
                             (deliveries inputs))))
     = [ "https://api.day.app/KEY/2023-11-15 06:13:20 有5.5级地震发生了/地点:Sichuan,东经:103.250000°,北纬:30.500000°,地震深度:10.0公里";
         "https://api.day.app/KEY/2023-11-15 06:13:21 有5.5级地震发生了/地点:Yunnan,东经:103.250000°,北纬:30.500000°,地震深度:10.0公里" ].
Proof.
  split; [reflexivity |].
  rewrite (notification_requests_in_order
             "KEY" Reference.Location Reference.LoadLocation
             Reference.Format Reference.fmt_f Reference.url_Parse
             Example.shanghai
             [(Example.quake "Sichuan" Example.t0_ms, Example.unreachable);
              (Example.quake "Yunnan" (Example.t0_ms + 1000),
               Example.answers "success")]
             eq_refl).
  - vm_compute. reflexivity.
  - intros input [<- | [<- | []]]; vm_compute; reflexivity.
Defined.

Lemma legacy_loop_sends_every_head_witness :
  let lp := legacy_loop Reference.url_Parse (Example.decode Example.bodies) in
  let tick := ticker_C (Example.answers "one event") Example.forty_minutes_later in
  let ev := Example.quake "Sichuan" Example.t0_ms in
  30 * time.Minute < Example.forty_minutes_later - time.UnixMilli (StartAt ev)
  /\ sends (p_trace (lp [tick])) = [ev]
  /\ p_lastTs (lp [tick]) = Example.t0_ms.
Proof.
  split; [reflexivity |].
  apply (legacy_loop_sends_every_head
           Reference.url_Parse (Example.decode Example.bodies) []
           (Example.answers "one event") Example.forty_minutes_later
           (Example.feed_reply [Example.quake "Sichuan" Example.t0_ms])
           (Example.quake "Sichuan" Example.t0_ms) []);
    reflexivity.
Defined.

Lemma query_url_injective_witness :
  0 <> Example.t0_ms /\ query_url 0 <> query_url Example.t0_ms.
Proof.
  assert (H : 0 <> Example.t0_ms) by discriminate.
  split; [exact H | exact (query_url_injective 0 Example.t0_ms H)].
Defined.
